(** * Virtual assistant: command routing and the e-mail dialogue

    A shallow embedding of [assistant.py].  The utterance is a Python [str];
    it is modelled as a [string] whose characters are the code points
    0..255.  Everything the program does to the outside world (speaking,
    listening, opening a browser, launching a process, calling one of the
    service helpers) is recorded as an [event] in a log, and the results of
    the successive [listen] calls are an input of the model. *)

From Stdlib Require Import String Ascii List Bool Arith Lia.
Import ListNotations.
Local Open Scope string_scope.
Local Open Scope list_scope.

(** ** Python string primitives used by the program *)

Module Py.

(** [c.isspace()] for a code point below 256: TAB, LF, VT, FF, CR, the four
    separators FS..US, the blank, NEL and the no-break space. *)
Definition isspace (c : ascii) : bool :=
  let n := nat_of_ascii c in
  (((9 <=? n) && (n <=? 13)) || ((28 <=? n) && (n <=? 32))
   || (n =? 133) || (n =? 160))%nat.

(** [s.startswith(p)] *)
Definition startswith (s p : string) : bool := String.prefix p s.

(** [s[n:]] *)
Fixpoint drop (n : nat) (s : string) : string :=
  match n, s with
  | S k, String _ s' => drop k s'
  | _, _ => s
  end.

(** [sub in s], substring containment. *)
Fixpoint str_in (sub s : string) : bool :=
  String.prefix sub s ||
  match s with
  | EmptyString => false
  | String _ s' => str_in sub s'
  end.

(** [s.replace(old, new)] for a non-empty [old] (every call of the program
    passes a non-empty literal): occurrences are replaced from left to right
    and do not overlap.  [skip] counts the characters of the occurrence just
    replaced that are still to be passed over. *)
Fixpoint replace_from (old new : string) (skip : nat) (s : string) : string :=
  match s with
  | EmptyString => EmptyString
  | String c s' =>
      match skip with
      | S k => replace_from old new k s'
      | O =>
          if String.prefix old s
          then (new ++ replace_from old new (String.length old - 1) s')%string
          else String c (replace_from old new 0 s')
      end
  end.

Definition replace (old new s : string) : string := replace_from old new 0 s.

(** [s.lstrip()], [s.rstrip()] and [s.strip()] *)
Fixpoint lstrip (s : string) : string :=
  match s with
  | String c s' => if isspace c then lstrip s' else s
  | EmptyString => EmptyString
  end.

Fixpoint rstrip (s : string) : string :=
  match s with
  | EmptyString => EmptyString
  | String c s' =>
      match rstrip s' with
      | EmptyString => if isspace c then EmptyString else String c EmptyString
      | r => String c r
      end
  end.

Definition strip (s : string) : string := rstrip (lstrip s).

(** [s.split()]: the maximal runs of non-blank characters, in order.  [cur]
    is the run being read. *)
Fixpoint split_from (cur : string) (s : string) : list string :=
  match s with
  | EmptyString => match cur with EmptyString => [] | _ => [cur] end
  | String c s' =>
      if isspace c
      then match cur with
           | EmptyString => split_from EmptyString s'
           | _ => cur :: split_from EmptyString s'
           end
      else split_from (cur ++ String c EmptyString)%string s'
  end.

Definition split_ws (s : string) : list string := split_from EmptyString s.

(** [s.split(sep, 1)]: [[s]] when [sep] does not occur, else the text before
    and the text after the first occurrence.  [before] is the text already
    passed. *)
Fixpoint split_once_from (sep before s : string) : list string :=
  if String.prefix sep s then [before; drop (String.length sep) s]
  else match s with
       | EmptyString => [before]
       | String c s' => split_once_from sep (before ++ String c EmptyString)%string s'
       end.

Definition split_once (sep s : string) : list string :=
  split_once_from sep EmptyString s.

(** [sep.join(l)] *)
Definition join (sep : string) (l : list string) : string := String.concat sep l.

(** [x in l] for a list of strings *)
Definition mem (x : string) (l : list string) : bool := existsb (String.eqb x) l.

(** [l.index(x)]: the position of the first element equal to [x]; [None]
    stands for the [ValueError] of an absent element. *)
Fixpoint index (x : string) (l : list string) : option nat :=
  match l with
  | [] => None
  | y :: l' => if String.eqb y x then Some 0
               else match index x l' with Some i => Some (S i) | None => None end
  end.

(** Truth value of a string: empty is false. *)
Definition truthy (s : string) : bool :=
  match s with EmptyString => false | _ => true end.

(** Truth value of an [Optional[str]]: [None] and the empty string are false. *)
Definition otruthy (o : option string) : bool :=
  match o with Some s => truthy s | None => false end.

(** [o or d] for an [Optional[str]] *)
Definition or_else (o : option string) (d : string) : string :=
  match o with
  | Some s => if truthy s then s else d
  | None => d
  end.

(** [k in d] / [d[k]] for a dict written as a literal *)
Fixpoint dict_get {V : Type} (k : string) (d : list (string * V)) : option V :=
  match d with
  | [] => None
  | (k', v) :: d' => if String.eqb k' k then Some v else dict_get k d'
  end.

End Py.

Import Py.

(** ** Effects *)

(** What the program does to the outside world.  [speak] and [listen] are
    the two I/O helpers; [tell_time], [tell_date], [search_wikipedia],
    [get_weather] and [send_email] wrap a clock or a network service and
    catch every exception of it, so a call of one of them is one event. *)
Inductive event : Type :=
| ESpeak (text : string)
| EListen (timeout phrase_time_limit : nat) (heard : option string)
| ETellTime
| ETellDate
| ESearchWikipedia (query : string)
| EBrowserOpen (url : string)
| EPopen (argv : list string)
| EShellCall (cmd : string)
| EGetWeather (city : string)
| ESendEmail (to_addr subject body : string).

(** The exceptions that leave [parse_and_execute]. *)
Inductive exn : Type :=
| IndexError
| ValueError
| OSError (msg : string)
| SystemExit (code : nat).

(** The part of the world the program changes: what the microphone will
    still deliver, one entry per [listen] call ([None]: time-out, unclear
    audio or a service error), and the log of events so far. *)
Record world : Type := mkWorld {
  pending : list (option string);
  log : list event
}.

(** The part it only reads: [sys.platform], and whether launching a process
    fails ([Some msg]: [subprocess.Popen], resp. [subprocess.call], raises
    an exception whose text is [msg]). *)
Record env : Type := mkEnv {
  platform : string;
  popen_error : option string;
  call_error : option string
}.

Inductive outcome (A : Type) : Type :=
| Done (a : A) (w : world)
| Raised (e : exn) (w : world).
Arguments Done {A} a w.
Arguments Raised {A} e w.

Definition M (A : Type) : Type := world -> outcome A.

Definition ret {A : Type} (a : A) : M A := fun w => Done a w.

Definition bind {A B : Type} (m : M A) (k : A -> M B) : M B :=
  fun w => match m w with
           | Done a w' => k a w'
           | Raised e w' => Raised e w'
           end.

Definition raise {A : Type} (e : exn) : M A := fun w => Raised e w.

Notation "x <- m ;; k" := (bind m (fun x => k))
  (at level 61, m at next level, right associativity).
Notation "m ;; k" := (bind m (fun _ => k))
  (at level 61, right associativity).

Definition emit (ev : event) : M unit :=
  fun w => Done tt (mkWorld (pending w) (log w ++ [ev])).

Definition events_of {A : Type} (o : outcome A) : list event :=
  match o with Done _ w => log w | Raised _ w => log w end.

Definition raised_of {A : Type} (o : outcome A) : option exn :=
  match o with Done _ _ => None | Raised e _ => Some e end.

(** A run from a fresh log, given what the microphone will deliver. *)
Definition run {A : Type} (m : M A) (heard : list (option string)) : outcome A :=
  m (mkWorld heard []).

(** ** The helpers of [assistant.py] *)

Definition speak (text : string) : M unit := emit (ESpeak text).

(** [listen]: the next recognised text, or [None]; a microphone with nothing
    more to deliver times out.  The model covers what [listen] returns; an
    exception of the microphone or of the recogniser that [listen] does not
    catch is not part of it. *)
Definition listen (timeout phrase_time_limit : nat) : M (option string) :=
  fun w => match pending w with
           | [] => Done None (mkWorld [] (log w ++ [EListen timeout phrase_time_limit None]))
           | r :: rest => Done r (mkWorld rest (log w ++ [EListen timeout phrase_time_limit r]))
           end.

Definition tell_time : M unit := emit ETellTime.
Definition tell_date : M unit := emit ETellDate.
Definition search_wikipedia (query : string) : M unit := emit (ESearchWikipedia query).
Definition get_weather (city : string) : M unit := emit (EGetWeather city).
Definition send_email (to_addr subject body : string) : M unit :=
  emit (ESendEmail to_addr subject body).

Definition open_website (url : string) : M unit :=
  let url := if negb (startswith url "http") then ("https://" ++ url)%string else url in
  speak ("Opening " ++ url)%string ;;
  emit (EBrowserOpen url).

(** One entry of the [apps] dict of [open_app]. *)
Record launcher : Type := mkLauncher {
  win : option string;
  mac : option string;
  linux : option string
}.

Definition apps : list (string * launcher) :=
  [ ("notepad", mkLauncher (Some "notepad.exe") None (Some "gedit"));
    ("calculator", mkLauncher (Some "calc.exe") (Some "open -a Calculator")
                              (Some "gnome-calculator"));
    ("code", mkLauncher
       (Some "C:\Users\%USERNAME%\AppData\Local\Programs\Microsoft VS Code\Code.exe")
       (Some "open -a 'Visual Studio Code'") (Some "code")) ].

(** The tail of [open_app], shared by the macOS and the other platforms. *)
Definition launch_posix (e : env) (app_key : string) (cmd : option string) : M unit :=
  if otruthy cmd then
    let cmd := or_else cmd "" in
    speak ("Opening " ++ app_key)%string ;;
    emit (EPopen (split_ws cmd)) ;;
    match popen_error e with
    | None => ret tt
    | Some _ =>
        emit (EShellCall cmd) ;;
        match call_error e with
        | None => ret tt
        | Some e2 => speak ("Could not open the application: " ++ e2)%string
        end
    end
  else
    speak "No command configured for your OS; please update the apps mapping in the script.".

Definition open_app (e : env) (app_key : string) : M unit :=
  match dict_get app_key apps with
  | None =>
      speak ("I don't have a mapping for " ++ app_key
             ++ ". You can add it to the apps dict.")%string
  | Some entry =>
      if startswith (platform e) "win" then
        let cmd := win entry in
        if otruthy cmd then
          speak ("Opening " ++ app_key)%string ;;
          emit (EPopen [or_else cmd ""]) ;;
          match popen_error e with
          | None => ret tt
          | Some msg => raise (OSError msg)
          end
        else launch_posix e app_key cmd
      else if startswith (platform e) "darwin" then launch_posix e app_key (mac entry)
      else launch_posix e app_key (linux entry)
  end.

(** ** Command parsing *)

(** The conditions of the [if]/[elif] chain of [parse_and_execute], in the
    order of the source. *)
Definition greeting_keywords : list string := ["hello"; "hi"; "hey"].

Definition is_greeting (text : string) : bool :=
  existsb (fun kw => str_in kw text) greeting_keywords.

Definition is_time (text : string) : bool := str_in "time" text.

Definition is_date (text : string) : bool := str_in "date" text || str_in "day" text.

Definition is_open_website (text : string) : bool := startswith text "open ".

Definition is_open_app (text : string) : bool :=
  str_in "launch " text || str_in "open app " text || str_in "open application" text.

Definition is_wikipedia (text : string) : bool :=
  startswith text "who is " || startswith text "what is "
  || startswith text "tell me about ".

Definition is_weather (text : string) : bool := str_in "weather" text.

Definition is_send_email (text : string) : bool :=
  str_in "send email" text || str_in "send an email" text.

Definition exit_keywords : list string :=
  ["quit"; "exit"; "shutdown"; "stop assistant"; "goodbye"].

Definition is_exit (text : string) : bool :=
  existsb (fun kw => str_in kw text) exit_keywords.

(** The [quick] dict of the open-website branch. *)
Definition quick : list (string * string) :=
  [ ("youtube", "youtube.com"); ("google", "google.com"); ("gmail", "mail.google.com") ].

(** The prefixes the open-application loop tries. *)
Definition app_prefixes : list string := ["launch "; "open app "; "open application "].

(** The [for prefix in ...] loop of the open-application branch: the first
    prefix that occurs decides; [split(prefix, 1)[1]] and [split()[0]] raise
    [IndexError] on a missing element; when no prefix occurs the loop ends
    and nothing is done. *)
Fixpoint launch_first (e : env) (text : string) (prefixes : list string) : M unit :=
  match prefixes with
  | [] => ret tt
  | prefix :: rest =>
      if str_in prefix text then
        match nth_error (split_once prefix text) 1 with
        | None => raise IndexError
        | Some after =>
            match nth_error (split_ws (strip after)) 0 with
            | None => raise IndexError
            | Some appname => open_app e appname
            end
        end
      else launch_first e text rest
  end.

Definition weather_prompt : string :=
  "Please include the city after 'in', e.g. 'weather in Delhi'.".

(** [conf and "yes" in conf] *)
Definition affirmative (conf : option string) : bool :=
  match conf with
  | Some c => truthy c && str_in "yes" c
  | None => false
  end.

(** The body of the send-email branch. *)
Definition email_dialogue : M unit :=
  speak "Who is the recipient? Please say the email address." ;;
  heard_to <- listen 8 6 ;;
  match heard_to with
  | Some to_addr =>
      if truthy to_addr then
        speak "What is the subject?" ;;
        heard_subject <- listen 8 8 ;;
        let subject := or_else heard_subject "No subject" in
        speak "Tell me the message." ;;
        heard_body <- listen 12 20 ;;
        let body := or_else heard_body "" in
        speak ("Sending email to " ++ to_addr ++ " with subject " ++ subject
               ++ ". Confirm by saying yes.")%string ;;
        conf <- listen 5 3 ;;
        if affirmative conf then send_email to_addr subject body
        else speak "Email cancelled."
      else speak "Recipient not provided. Cancelling."
  | None => speak "Recipient not provided. Cancelling."
  end.

(** The body of the [else] branch: fall back to a web search. *)
Definition fallback_search (text : string) : M unit :=
  speak "I didn't catch a command. I can search the web or Wikipedia. Searching the web for your phrase." ;;
  let query := replace " " "+" text in
  emit (EBrowserOpen ("https://www.google.com/search?q=" ++ query)%string).

Definition parse_and_execute (e : env) (utterance : option string) : M unit :=
  match utterance with
  | None => ret tt
  | Some text =>
      if is_greeting text then speak "Hello! How can I help you?"
      else if is_time text then tell_time
      else if is_date text then tell_date
      else if is_open_website text then
        let target := strip (replace "open " "" text) in
        match dict_get target quick with
        | Some site => open_website site
        | None => open_website target
        end
      else if is_open_app text then launch_first e text app_prefixes
      else if is_wikipedia text then
        let topic :=
          strip (replace "tell me about " ""
                   (replace "what is " "" (replace "who is " "" text))) in
        search_wikipedia topic
      else if is_weather text then
        let words := split_ws text in
        if mem "in" words then
          match index "in" words with
          | None => raise ValueError
          | Some idx =>
              let city := join " " (skipn (idx + 1) words) in
              if truthy city then get_weather city else speak weather_prompt
          end
        else speak weather_prompt
      else if is_send_email text then email_dialogue
      else if is_exit text then speak "Goodbye!" ;; raise (SystemExit 0)
      else fallback_search text
  end.

(** ** The router seen on its own

    [parse_and_execute] decides what to do and does it in one pass.  The
    decision alone, the branch taken and the arguments extracted from the
    utterance, is [classify]; what each branch then does is [handle]. *)
Inductive intent : Type :=
| Greet
| TellTime
| TellDate
| OpenWebsite (target : string)
| OpenApp (app_key : string)
| OpenAppUnmatched        (* the open-application branch, no prefix found *)
| Encyclopedia (topic : string)
| Weather (city : string)
| WeatherMissingCity
| ComposeEmail
| Exit
| Unrecognized (raw : string).

Inductive routed : Type :=
| Routed (i : intent)
| Fails (e : exn).

(** The argument extraction of the open-application loop. *)
Fixpoint app_key_of (text : string) (prefixes : list string) : routed :=
  match prefixes with
  | [] => Routed OpenAppUnmatched
  | prefix :: rest =>
      if str_in prefix text then
        match nth_error (split_once prefix text) 1 with
        | None => Fails IndexError
        | Some after =>
            match nth_error (split_ws (strip after)) 0 with
            | None => Fails IndexError
            | Some appname => Routed (OpenApp appname)
            end
        end
      else app_key_of text rest
  end.

Definition classify (text : string) : routed :=
  if is_greeting text then Routed Greet
  else if is_time text then Routed TellTime
  else if is_date text then Routed TellDate
  else if is_open_website text then
    let target := strip (replace "open " "" text) in
    match dict_get target quick with
    | Some site => Routed (OpenWebsite site)
    | None => Routed (OpenWebsite target)
    end
  else if is_open_app text then app_key_of text app_prefixes
  else if is_wikipedia text then
    Routed (Encyclopedia
              (strip (replace "tell me about " ""
                        (replace "what is " "" (replace "who is " "" text)))))
  else if is_weather text then
    let words := split_ws text in
    if mem "in" words then
      match index "in" words with
      | None => Fails ValueError
      | Some idx =>
          let city := join " " (skipn (idx + 1) words) in
          if truthy city then Routed (Weather city) else Routed WeatherMissingCity
      end
    else Routed WeatherMissingCity
  else if is_send_email text then Routed ComposeEmail
  else if is_exit text then Routed Exit
  else Routed (Unrecognized text).

Definition handle (e : env) (i : intent) : M unit :=
  match i with
  | Greet => speak "Hello! How can I help you?"
  | TellTime => tell_time
  | TellDate => tell_date
  | OpenWebsite target => open_website target
  | OpenApp app_key => open_app e app_key
  | OpenAppUnmatched => ret tt
  | Encyclopedia topic => search_wikipedia topic
  | Weather city => get_weather city
  | WeatherMissingCity => speak weather_prompt
  | ComposeEmail => email_dialogue
  | Exit => speak "Goodbye!" ;; raise (SystemExit 0)
  | Unrecognized raw => fallback_search raw
  end.

Definition dispatch (e : env) (r : routed) : M unit :=
  match r with
  | Routed i => handle e i
  | Fails x => raise x
  end.

(** Whether a rule placed before a given rule of the chain matches. *)
Definition matched_before_open_app (text : string) : bool :=
  is_greeting text || is_time text || is_date text || is_open_website text.

Definition matched_before_weather (text : string) : bool :=
  matched_before_open_app text || is_open_app text || is_wikipedia text.

Definition matched_before_send_email (text : string) : bool :=
  matched_before_weather text || is_weather text.

Definition matched_before_exit (text : string) : bool :=
  matched_before_send_email text || is_send_email text.

(** A text reaches a rule when that rule matches and no earlier one does. *)
Definition reaches_open_app (text : string) : bool :=
  negb (matched_before_open_app text) && is_open_app text.

Definition reaches_weather (text : string) : bool :=
  negb (matched_before_weather text) && is_weather text.

Definition reaches_send_email (text : string) : bool :=
  negb (matched_before_send_email text) && is_send_email text.

(** What a turn that listens to nothing does: it returns, having logged
    [evs], whatever the platform and the microphone. *)
Definition performs (text : string) (evs : list event) : Prop :=
  forall (e : env) (heard : list (option string)),
    run (parse_and_execute e (Some text)) heard = Done tt (mkWorld heard evs).

(** ** Observations on a log *)

Definition is_send (ev : event) : bool :=
  match ev with ESendEmail _ _ _ => true | _ => false end.

(** How often the send helper was called. *)
Definition sends (l : list event) : nat := List.length (filter is_send l).

(** The e-mail dialogue keeps no state variable; where it ended is read off
    the last thing it did: it called [send_email], or it announced that the
    e-mail is cancelled. *)
Inductive dialogue_end : Type := Sent | Cancelled.

Definition email_end (l : list event) : option dialogue_end :=
  match last l ETellTime with
  | ESendEmail _ _ _ => Some Sent
  | ESpeak msg =>
      if String.eqb msg "Recipient not provided. Cancelling."
         || String.eqb msg "Email cancelled."
      then Some Cancelled else None
  | _ => None
  end.

(** Whether a target names a URL scheme, as in [scheme://rest]. *)
Definition carries_scheme (target : string) : bool := str_in "://" target.

Definition linux_env : env := mkEnv "linux" None None.

(** ** The main loop *)

(** The world an outcome ends in. *)
Definition world_of {A : Type} (o : outcome A) : world :=
  match o with Done _ w => w | Raised _ w => w end.

(** An outcome whose log has [l] in front. *)
Definition prepend_log {A : Type} (l : list event) (o : outcome A) : outcome A :=
  match o with
  | Done a w => Done a (mkWorld (pending w) (l ++ log w))
  | Raised x w => Raised x (mkWorld (pending w) (l ++ log w))
  end.

(** The first [n] rounds of the [while True] of [main_loop]: listen with the
    default time-outs, parse and execute.  The pause between two rounds
    changes nothing the log records.  An exception of a round ends the
    loop. *)
Fixpoint turns (e : env) (n : nat) : M unit :=
  match n with
  | O => ret tt
  | S k =>
      text <- listen 5 8 ;;
      parse_and_execute e text ;;
      turns e k
  end.

Definition main_loop (e : env) (n : nat) : M unit :=
  speak "Assistant online. Say 'hello' to start, or say a command." ;;
  turns e n.

(** A computation is framed when the log it starts from only ends up in
    front of what it logs. *)
Definition framed {A : Type} (m : M A) : Prop :=
  forall (p : list (option string)) (l : list event),
    m (mkWorld p l) = prepend_log l (m (mkWorld p [])).

(** An event is fit for the browser when it is no call of [webbrowser.open]
    or the URL of the call starts with "http". *)
Definition url_event_ok (ev : event) : bool :=
  match ev with
  | EBrowserOpen url => startswith url "http"
  | _ => true
  end.

(** The log of an e-mail dialogue that is cancelled for want of a recipient,
    and of one that goes through its four slots. *)
Definition dialogue_log_short (heard_to : option string) : list event :=
  [ESpeak "Who is the recipient? Please say the email address.";
   EListen 8 6 heard_to;
   ESpeak "Recipient not provided. Cancelling."].

Definition dialogue_log_full (to_addr : string) (r2 r3 conf : option string) : list event :=
  [ESpeak "Who is the recipient? Please say the email address.";
   EListen 8 6 (Some to_addr);
   ESpeak "What is the subject?";
   EListen 8 8 r2;
   ESpeak "Tell me the message.";
   EListen 12 20 r3;
   ESpeak ("Sending email to " ++ to_addr ++ " with subject "
           ++ or_else r2 "No subject" ++ ". Confirm by saying yes.")%string;
   EListen 5 3 conf;
   if affirmative conf
   then ESendEmail to_addr (or_else r2 "No subject") (or_else r3 "")
   else ESpeak "Email cancelled."].

(** A text with no white space in it. *)
Fixpoint blank_free (s : string) : bool :=
  match s with
  | EmptyString => true
  | String c s' => negb (isspace c) && blank_free s'
  end.

(** A text that is empty or starts with white space. *)
Definition starts_blank (s : string) : bool :=
  match s with
  | EmptyString => true
  | String c _ => isspace c
  end.

(** ** Inside the helpers that talk to a service

    In a turn a call of [send_email], [get_weather] or [listen] is one event.
    What such a call does inside is modelled here, as the list of its
    actions: what it says and what it asks of the service. *)
Inductive action : Type :=
| ASay (text : string)
| AHttpGet (url : string) (params : list (string * string)) (timeout : nat)
| ASmtpConnect (host : string) (port : nat)
| ASmtpStartTls
| ASmtpLogin (user password : string)
| ASmtpSendMessage (sender to_addr subject body : string)
| ASmtpQuit.

(** The steps of a [try] block, each with the exception text it raises, if it
    raises: they are run in order up to the first that raises, which is
    still attempted. *)
Fixpoint attempt (steps : list (action * option string)) : list action * option string :=
  match steps with
  | [] => ([], None)
  | (a, Some msg) :: _ => ([a], Some msg)
  | (a, None) :: rest => let (done, failure) := attempt rest in (a :: done, failure)
  end.

(** [EMAIL_USER] and [EMAIL_PASS], as [os.getenv] gives them. *)
Record credentials : Type := mkCredentials {
  EMAIL_USER : option string;
  EMAIL_PASS : option string
}.

(** What goes wrong in [send_email]: for the building of the message and for
    each call of the SMTP connection, the text of the exception it raises,
    if it raises. *)
Record smtp_faults : Type := mkFaults {
  build_fault : option string;
  connect_fault : option string;
  starttls_fault : option string;
  login_fault : option string;
  send_fault : option string;
  quit_fault : option string
}.

Definition no_fault : smtp_faults := mkFaults None None None None None None.

(** [send_email]: its actions and the value it returns. *)
Definition send_email_body (c : credentials) (f : smtp_faults)
           (to_addr subject body : string) : list action * bool :=
  if negb (otruthy (EMAIL_USER c)) || negb (otruthy (EMAIL_PASS c)) then
    ([ASay "Email credentials not configured. Set EMAIL_USER and EMAIL_PASS in .env."],
     false)
  else
    let user := or_else (EMAIL_USER c) "" in
    let pass := or_else (EMAIL_PASS c) "" in
    match build_fault f with
    | Some msg => ([ASay ("Failed to send email. " ++ msg)%string], false)
    | None =>
        let (done, failure) :=
          attempt [ (ASmtpConnect "smtp.gmail.com" 587, connect_fault f);
                    (ASmtpStartTls, starttls_fault f);
                    (ASmtpLogin user pass, login_fault f);
                    (ASmtpSendMessage user to_addr subject body, send_fault f);
                    (ASmtpQuit, quit_fault f) ] in
        match failure with
        | None => (done ++ [ASay "Email sent successfully."], true)
        | Some msg => (done ++ [ASay ("Failed to send email. " ++ msg)%string], false)
        end
    end.

Definition is_say (a : action) : bool :=
  match a with ASay _ => true | _ => false end.

(** [c.lower()] for a code point below 256: the letters A..Z and the
    capital letters of Latin-1 (all of 192..222 but the multiplication sign)
    move up by 32. *)
Definition is_upper (c : ascii) : bool :=
  let n := nat_of_ascii c in
  (((65 <=? n) && (n <=? 90)) || ((192 <=? n) && (n <=? 214))
   || ((216 <=? n) && (n <=? 222)))%nat.

Definition lower_char (c : ascii) : ascii :=
  if is_upper c then ascii_of_nat (nat_of_ascii c + 32) else c.

Fixpoint lower (s : string) : string :=
  match s with
  | EmptyString => EmptyString
  | String c s' => String (lower_char c) (lower s')
  end.

(** What the microphone and the recogniser give to one call of [listen]:
    no speech within the time-out, or an audio that is recognised, not
    understood, or not processed because the service fails. *)
Inductive recognition : Type :=
| Transcript (text : string)
| UnknownValue
| RequestError (msg : string).

Inductive capture : Type :=
| WaitTimeout
| Audio (r : recognition).

(** [listen]: what it prints and what it returns. *)
Definition listen_body (c : capture) : list string * option string :=
  match c with
  | WaitTimeout => (["Listening..."; "No speech detected (timeout)."], None)
  | Audio (Transcript text) =>
      (["Listening..."; ("You: " ++ text)%string], Some (lower text))
  | Audio UnknownValue => (["Listening..."; "Couldn't understand audio."], None)
  | Audio (RequestError msg) =>
      (["Listening..."; ("Speech recognition service error: " ++ msg)%string], None)
  end.

(** What the main loop hears from a sequence of captures. *)
Definition heard_from (captures : list capture) : list (option string) :=
  map (fun c => snd (listen_body c)) captures.

(** *** The weather helper *)

(** A value of [r.json()].  A number carries the text [str] gives for it. *)
#[local] Unset Elimination Schemes.
Inductive json : Type :=
| JNull
| JBool (b : bool)
| JNum (text : string)
| JStr (s : string)
| JArr (items : list json)
| JObj (fields : list (string * json)).
#[local] Set Elimination Schemes.

(** Why a subscript raises. *)
Inductive lookup_failure : Type :=
| KeyMissing (key : string)       (* KeyError *)
| KeyZeroMissing                  (* KeyError, for [d[0]] on a dict *)
| OutOfRange                      (* IndexError *)
| NotSubscriptable (v : json).    (* TypeError *)

(** [v[key]] for a string [key] *)
Definition subscript_key (v : json) (key : string) : json + lookup_failure :=
  match v with
  | JObj fields =>
      match dict_get key fields with
      | Some x => inl x
      | None => inr (KeyMissing key)
      end
  | _ => inr (NotSubscriptable v)
  end.

(** [v[0]] *)
Definition subscript_zero (v : json) : json + lookup_failure :=
  match v with
  | JArr (x :: _) => inl x
  | JArr [] => inr OutOfRange
  | JStr (String c _) => inl (JStr (String c EmptyString))
  | JStr EmptyString => inr OutOfRange
  | JObj _ => inr KeyZeroMissing
  | _ => inr (NotSubscriptable v)
  end.

(** The three values [get_weather] reads from the reply, in the order of the
    source; the first subscript that raises ends the reading. *)
Definition weather_fields (data : json) : (json * json * json) + lookup_failure :=
  match subscript_key data "weather" with
  | inr x => inr x
  | inl weather =>
      match subscript_zero weather with
      | inr x => inr x
      | inl first =>
          match subscript_key first "description" with
          | inr x => inr x
          | inl desc =>
              match subscript_key data "main" with
              | inr x => inr x
              | inl main =>
                  match subscript_key main "temp" with
                  | inr x => inr x
                  | inl temp =>
                      match subscript_key main "feels_like" with
                      | inr x => inr x
                      | inl feels => inl (desc, temp, feels)
                      end
                  end
              end
          end
      end
  end.

(** What the request gives: an exception of [requests.get],
    [raise_for_status] or [r.json()], with its text, or the decoded reply. *)
Inductive http_reply : Type :=
| HttpError (msg : string)
| HttpJson (data : json).

(** The degree sign, code point 176. *)
Definition degree : string := String (ascii_of_nat 176) EmptyString.

Section Weather.

(** The text of the exception of a failed subscript, and the text an
    f-string gives for a list or a dict: both are Python's business. *)
Variable explain : lookup_failure -> string.
Variable render : json -> string.

(** [f"{v}"] *)
Definition text_of (v : json) : string :=
  match v with
  | JStr s => s
  | JNum text => text
  | JBool true => "True"
  | JBool false => "False"
  | JNull => "None"
  | JArr _ | JObj _ => render v
  end.

Definition weather_url : string := "https://api.openweathermap.org/data/2.5/weather".

(** [get_weather], given [OPENWEATHER_APIKEY] and what the request gives. *)
Definition get_weather_body (apikey : option string) (reply : http_reply)
           (city : string) : list action :=
  if negb (otruthy apikey) then
    [ASay "Weather API key is not configured. Please set OPENWEATHER_APIKEY in your .env."]
  else
    let params := [("q", city); ("appid", or_else apikey ""); ("units", "metric")] in
    AHttpGet weather_url params 8 ::
    match reply with
    | HttpError msg => [ASay ("Failed to get weather: " ++ msg)%string]
    | HttpJson data =>
        match weather_fields data with
        | inr x => [ASay ("Failed to get weather: " ++ explain x)%string]
        | inl (desc, temp, feels) =>
            [ASay ("Weather in " ++ city ++ ": " ++ text_of desc ++ ". Temperature "
                   ++ text_of temp ++ " " ++ degree ++ "C, feels like "
                   ++ text_of feels ++ " " ++ degree ++ "C.")%string]
        end
    end.

End Weather.

(** * Properties *)

(** ** Strings and lists *)

Section StringFacts.

Lemma prefix_app (p s : string) :
  String.prefix p s = true <-> exists r, s = (p ++ r)%string.
Proof.
  revert s; induction p as [|c p IH]; intros s.
  - split; [intros _; exists s; reflexivity | intros _; destruct s; reflexivity].
  - destruct s as [|d s]; simpl.
    + split; [discriminate | intros [r Hr]; discriminate].
    + destruct (ascii_dec c d) as [->|Hcd].
      * rewrite IH. split; intros [r Hr]; exists r.
        -- now rewrite Hr.
        -- now injection Hr.
      * split; [discriminate | intros [r Hr]; injection Hr; intros _ E; now symmetry in E].
Qed.

Lemma str_in_prefix (sub s : string) :
  String.prefix sub s = true -> str_in sub s = true.
Proof. intros H; destruct s; cbn [str_in]; rewrite H; reflexivity. Qed.

Lemma str_in_app (sub s : string) :
  str_in sub s = true <-> exists a b, s = (a ++ sub ++ b)%string.
Proof.
  split.
  - induction s as [|c s IH]; cbn [str_in]; intros H.
    + rewrite orb_false_r in H. apply prefix_app in H as [r Hr].
      exists EmptyString, r. exact Hr.
    + apply orb_true_iff in H as [H|H].
      * apply prefix_app in H as [r Hr]. exists EmptyString, r. exact Hr.
      * destruct (IH H) as (a & b & Hab). exists (String c a), b.
        simpl. now rewrite Hab.
  - intros (a & b & ->). induction a as [|c a IH].
    + apply str_in_prefix, prefix_app. now exists b.
    + cbn [append str_in]. rewrite IH. apply orb_true_r.
Qed.

Lemma keyword_in (kws : list string) (text : string) :
  existsb (fun kw => str_in kw text) kws = true <->
  exists kw a b, In kw kws /\ text = (a ++ kw ++ b)%string.
Proof.
  rewrite existsb_exists. split.
  - intros (kw & Hin & H). apply str_in_app in H as (a & b & H). now exists kw, a, b.
  - intros (kw & a & b & Hin & H). exists kw. split; [exact Hin|].
    apply str_in_app. now exists a, b.
Qed.

Lemma mem_In (x : string) (l : list string) : mem x l = true <-> In x l.
Proof.
  unfold mem. rewrite existsb_exists. split.
  - intros (y & Hin & H). apply String.eqb_eq in H. now subst.
  - intros H. exists x. split; [exact H | apply String.eqb_refl].
Qed.

Lemma index_first (x : string) (pre post : list string) :
  ~ In x pre -> index x (pre ++ x :: post) = Some (List.length pre).
Proof.
  induction pre as [|y pre IH]; simpl; intros H.
  - now rewrite String.eqb_refl.
  - destruct (String.eqb y x) eqn:E.
    + apply String.eqb_eq in E. exfalso. apply H. now left.
    + rewrite IH; [reflexivity | intros Hin; apply H; now right].
Qed.

Lemma skipn_past (x : string) (pre post : list string) :
  skipn (List.length pre + 1) (pre ++ x :: post) = post.
Proof.
  rewrite Nat.add_1_r. induction pre as [|y pre IH]; simpl; [reflexivity | exact IH].
Qed.

Lemma split_from_nonempty (s cur w : string) :
  In w (split_from cur s) -> w <> EmptyString.
Proof.
  revert cur; induction s as [|c s IH]; simpl; intros cur H.
  - destruct cur; simpl in H; [contradiction|].
    destruct H as [<-|[]]. discriminate.
  - destruct (isspace c).
    + destruct cur; [now apply (IH EmptyString)|].
      destruct H as [<-|H]; [discriminate | now apply (IH EmptyString)].
    + now apply (IH _ H).
Qed.

Lemma split_ws_nonempty (s w : string) : In w (split_ws s) -> w <> EmptyString.
Proof. apply split_from_nonempty. Qed.

Lemma join_truthy (sep w : string) (l : list string) :
  w <> EmptyString -> truthy (join sep (w :: l)) = true.
Proof.
  intros H. destruct w; [contradiction|]. destruct l; reflexivity.
Qed.

End StringFacts.

(** ** The router and the turn *)

Lemma launch_first_dispatch (e : env) (text : string) (prefixes : list string) (w : world) :
  launch_first e text prefixes w = dispatch e (app_key_of text prefixes) w.
Proof.
  induction prefixes as [|p ps IH]; cbn [launch_first app_key_of]; [reflexivity|].
  destruct (str_in p text); [|exact IH].
  destruct (nth_error (split_once p text) 1) as [after|]; [|reflexivity].
  destruct (nth_error (split_ws (strip after)) 0); reflexivity.
Qed.

(** A turn on a present utterance does what [classify] decides, in every
    environment and from every world. *)
Lemma parse_and_execute_dispatch (e : env) (text : string) (w : world) :
  parse_and_execute e (Some text) w = dispatch e (classify text) w.
Proof.
  unfold parse_and_execute, classify.
  destruct (is_greeting text); [reflexivity|].
  destruct (is_time text); [reflexivity|].
  destruct (is_date text); [reflexivity|].
  destruct (is_open_website text).
  { destruct (dict_get _ quick); reflexivity. }
  destruct (is_open_app text); [apply launch_first_dispatch|].
  destruct (is_wikipedia text); [reflexivity|].
  destruct (is_weather text).
  { cbv zeta. destruct (mem "in" (split_ws text)); [|reflexivity].
    destruct (index "in" (split_ws text)); [|reflexivity].
    destruct (truthy _); reflexivity. }
  destruct (is_send_email text); [reflexivity|].
  destruct (is_exit text); reflexivity.
Qed.

Lemma performs_handle (text : string) (i : intent) (evs : list event) :
  classify text = Routed i ->
  (forall e heard, run (handle e i) heard = Done tt (mkWorld heard evs)) ->
  performs text evs.
Proof.
  intros Hc Hh e heard. unfold run. rewrite parse_and_execute_dispatch, Hc. apply Hh.
Qed.

(** Takes a rule of the chain out of a reachability hypothesis: the rule
    matching contradicts [H]. *)
Ltac rule_off H b :=
  destruct b; cbn [negb orb andb] in H; [discriminate H|].

(** Splits "no rule of this disjunction matches" into one fact per rule, and
    rewrites with these facts. *)
Ltac split_no H :=
  repeat match type of H with
         | (_ || _) = false => apply orb_false_iff in H as [H ?]
         end.

Ltac rewrite_no :=
  repeat match goal with E : _ = false |- _ => rewrite E; clear E end.

Lemma classify_weather_rule (text : string) :
  reaches_weather text = true ->
  classify text =
    if mem "in" (split_ws text) then
      match index "in" (split_ws text) with
      | None => Fails ValueError
      | Some idx =>
          if truthy (join " " (skipn (idx + 1) (split_ws text)))
          then Routed (Weather (join " " (skipn (idx + 1) (split_ws text))))
          else Routed WeatherMissingCity
      end
    else Routed WeatherMissingCity.
Proof.
  unfold reaches_weather, matched_before_weather, matched_before_open_app, classify.
  intros H.
  rule_off H (is_greeting text). rule_off H (is_time text). rule_off H (is_date text).
  rule_off H (is_open_website text). rule_off H (is_open_app text).
  rule_off H (is_wikipedia text).
  rewrite H. reflexivity.
Qed.

Lemma performs_missing_city (text : string) :
  classify text = Routed WeatherMissingCity -> performs text [ESpeak weather_prompt].
Proof. intros H. apply (performs_handle text _ _ H). reflexivity. Qed.

(** C1 (as amended): an utterance that reaches the weather rule and has the
    token "in" asks for the weather of the city made of the tokens after the
    FIRST "in", joined by blanks, when there is such a token; when "in" is
    the last token, or is no token at all, the turn only speaks the prompt
    for the phrasing and no search is made. *)
Theorem weather_city_after_first_in (text : string) :
  reaches_weather text = true ->
  (forall pre post : list string,
      split_ws text = pre ++ "in" :: post -> ~ In "in" pre ->
      (post <> [] ->
       classify text = Routed (Weather (join " " post))
       /\ performs text [EGetWeather (join " " post)])
      /\ (post = [] ->
          classify text = Routed WeatherMissingCity
          /\ performs text [ESpeak weather_prompt]))
  /\ (~ In "in" (split_ws text) ->
      classify text = Routed WeatherMissingCity
      /\ performs text [ESpeak weather_prompt]).
Proof.
  intros H. pose proof (classify_weather_rule text H) as Hc. split.
  - intros pre post Hs Hpre.
    assert (Hm : mem "in" (split_ws text) = true).
    { apply mem_In. rewrite Hs. apply in_elt. }
    rewrite Hm, Hs in Hc.
    rewrite (index_first _ _ _ Hpre), skipn_past in Hc.
    split; intros Hpost.
    + destruct post as [|w post]; [now elim Hpost|].
      rewrite join_truthy in Hc.
      * split; [exact Hc|]. apply (performs_handle text _ _ Hc). reflexivity.
      * apply (split_ws_nonempty text). rewrite Hs. apply in_or_app. right. right. now left.
    + subst post. cbn in Hc. split; [exact Hc | now apply performs_missing_city].
  - intros Hno.
    assert (Hm : mem "in" (split_ws text) = false).
    { apply not_true_is_false. intros Hm. apply Hno. now apply mem_In. }
    rewrite Hm in Hc. split; [exact Hc | now apply performs_missing_city].
Qed.

Lemma weather_city_after_first_in_witness :
  classify "weather in new york" = Routed (Weather "new york")
  /\ classify "weather" = Routed WeatherMissingCity.
Proof.
  split.
  - refine (proj1 (proj1 (proj1 (weather_city_after_first_in "weather in new york" _)
                            ["weather"] ["new"; "york"] _ _) _)).
    + reflexivity.
    + reflexivity.
    + intros [E|[]]; discriminate E.
    + discriminate.
  - refine (proj1 (proj2 (weather_city_after_first_in "weather" _) _)).
    + reflexivity.
    + intros [E|[]]; discriminate E.
Defined.

(** C1, as the claim words it, fails: with two tokens "in" the city starts
    after the first one, not after the last one. *)
Lemma weather_last_in_counterexample :
  (reaches_weather "weather in new york in spring" = true
   /\ split_ws "weather in new york in spring"
      = ["weather"; "in"; "new"; "york"] ++ "in" :: ["spring"]
   /\ classify "weather in new york in spring" = Routed (Weather "new york in spring")
   /\ classify "weather in new york in spring" <> Routed (Weather (join " " ["spring"])))
  /\ (reaches_weather "weather in paris in" = true
      /\ split_ws "weather in paris in" = ["weather"; "in"; "paris"] ++ "in" :: []
      /\ classify "weather in paris in" = Routed (Weather "paris in")
      /\ classify "weather in paris in" <> Routed WeatherMissingCity).
Proof.
  repeat split; try reflexivity; vm_compute; discriminate.
Qed.

(** C10: the greeting rule is a plain substring test and comes first: a text
    that has "hello", "hi" or "hey" anywhere in it, inside a word included,
    is a greeting, whatever later rule it would also match. *)
Theorem greeting_preempts (text kw a b : string) :
  In kw greeting_keywords -> text = (a ++ kw ++ b)%string ->
  classify text = Routed Greet
  /\ performs text [ESpeak "Hello! How can I help you?"].
Proof.
  intros Hkw Htext.
  assert (Hg : is_greeting text = true).
  { apply keyword_in. now exists kw, a, b. }
  assert (Hc : classify text = Routed Greet).
  { unfold classify. now rewrite Hg. }
  split; [exact Hc|]. apply (performs_handle text _ _ Hc). reflexivity.
Qed.

Lemma greeting_preempts_witness :
  (is_weather "weather in chicago" = true
   /\ classify "weather in chicago" = Routed Greet)
  /\ (is_wikipedia "tell me about history" = true
      /\ classify "tell me about history" = Routed Greet)
  /\ (is_send_email "send email to hilda" = true
      /\ classify "send email to hilda" = Routed Greet)
  /\ (is_exit "hey goodbye" = true /\ classify "hey goodbye" = Routed Greet).
Proof.
  split; [|split; [|split]]; (split; [reflexivity|]).
  - refine (proj1 (greeting_preempts "weather in chicago" "hi" "weather in c" "cago" _ _));
      [right; left; reflexivity | reflexivity].
  - refine (proj1 (greeting_preempts "tell me about history" "hi" "tell me about " "story" _ _));
      [right; left; reflexivity | reflexivity].
  - refine (proj1 (greeting_preempts "send email to hilda" "hi" "send email to " "lda" _ _));
      [right; left; reflexivity | reflexivity].
  - refine (proj1 (greeting_preempts "hey goodbye" "hey" "" " goodbye" _ _));
      [right; right; left; reflexivity | reflexivity].
Defined.

(** C6, as the claim words it, fails: an exit keyword does not win against a
    rule placed before the exit rule. *)
Lemma exit_keyword_counterexample :
  (In "goodbye" exit_keywords
   /\ "goodbye, see you another day" = ("" ++ "goodbye" ++ ", see you another day")%string
   /\ classify "goodbye, see you another day" = Routed TellDate)
  /\ (In "exit" exit_keywords
      /\ "open exit" = ("open " ++ "exit" ++ "")%string
      /\ classify "open exit" = Routed (OpenWebsite "exit")).
Proof.
  repeat split; try reflexivity.
  - cbv [exit_keywords]. do 4 right. now left.
  - cbv [exit_keywords]. right. now left.
Qed.

(** C7: the claim does not hold of the code.  [open_website] takes a target
    to carry a scheme when its first four letters are "http": a host name
    that begins with these letters goes to the browser with no scheme in
    front, and a target with another scheme gets a second one. *)
Theorem open_website_misses_scheme :
  (carries_scheme "httpbin.org" = false
   /\ classify "open httpbin.org" = Routed (OpenWebsite "httpbin.org")
   /\ performs "open httpbin.org"
        [ESpeak "Opening httpbin.org"; EBrowserOpen "httpbin.org"])
  /\ (carries_scheme "ftp://example.org" = true
      /\ classify "open ftp://example.org" = Routed (OpenWebsite "ftp://example.org")
      /\ performs "open ftp://example.org"
           [ESpeak "Opening https://ftp://example.org";
            EBrowserOpen "https://ftp://example.org"]).
Proof.
  repeat split; try reflexivity.
Qed.

(** What the open-website rule does: "open youtube" is the website
    youtube.com, through the quick table, and "open example.org" is the
    website example.org, as it is; [open_website] puts "https://" in front
    of a target whose first letters are not "http", and of no other. *)
Lemma open_website_targets :
  (classify "open youtube" = Routed (OpenWebsite "youtube.com")
   /\ performs "open youtube"
        [ESpeak "Opening https://youtube.com"; EBrowserOpen "https://youtube.com"])
  /\ (classify "open example.org" = Routed (OpenWebsite "example.org")
      /\ performs "open example.org"
           [ESpeak "Opening https://example.org"; EBrowserOpen "https://example.org"])
  /\ (forall target heard,
         startswith target "http" = false ->
         run (open_website target) heard
         = Done tt (mkWorld heard [ESpeak ("Opening https://" ++ target)%string;
                                   EBrowserOpen ("https://" ++ target)%string]))
  /\ (forall target heard,
         startswith target "http" = true ->
         run (open_website target) heard
         = Done tt (mkWorld heard [ESpeak ("Opening " ++ target)%string;
                                   EBrowserOpen target])).
Proof.
  split; [|split; [|split]].
  - split; [reflexivity | intros e heard; reflexivity].
  - split; [reflexivity | intros e heard; reflexivity].
  - intros target heard H. unfold run, open_website. rewrite H. reflexivity.
  - intros target heard H. unfold run, open_website. rewrite H. reflexivity.
Qed.

(** C8, as the claim words it, fails for the empty text: it is a present
    utterance, no rule matches it, and the turn falls back to a web search
    with an empty query. *)
Lemma empty_utterance_counterexample :
  classify "" = Routed (Unrecognized "")
  /\ run (parse_and_execute linux_env (Some "")) []
     = Done tt (mkWorld []
         [ESpeak "I didn't catch a command. I can search the web or Wikipedia. Searching the web for your phrase.";
          EBrowserOpen "https://www.google.com/search?q="]).
Proof. split; reflexivity. Qed.

(** C8 (as amended): for an absent utterance the turn does nothing: it
    returns at once, nothing is logged (so nothing is said and no search is
    made) and the microphone is not read. *)
Theorem absent_utterance_noop (e : env) (w : world) :
  parse_and_execute e None w = Done tt w.
Proof. reflexivity. Qed.

Lemma app_key_of_nonempty (text key : string) (prefixes : list string) :
  app_key_of text prefixes = Routed (OpenApp key) -> key <> EmptyString.
Proof.
  induction prefixes as [|p ps IH]; cbn [app_key_of]; [discriminate|].
  destruct (str_in p text); [|exact IH].
  destruct (nth_error (split_once p text) 1) as [after|]; [|discriminate].
  destruct (nth_error (split_ws (strip after)) 0) as [k|] eqn:E; [|discriminate].
  intros H. injection H as <-.
  apply (split_ws_nonempty (strip after)). exact (nth_error_In _ _ E).
Qed.

Lemma index_mem (x : string) (l : list string) :
  mem x l = true -> index x l <> None.
Proof.
  intros H. apply mem_In in H. apply in_split in H as (l1 & l2 & ->).
  induction l1 as [|y l1 IH]; cbn [app index].
  - now rewrite String.eqb_refl.
  - destruct (String.eqb y x); [discriminate|].
    destruct (index x (l1 ++ x :: l2)); [discriminate | exact IH].
Qed.

(** The only exception the router can end in is the [IndexError] of the
    open-application rule: the [index] of the weather rule is guarded by the
    membership test. *)
Lemma classify_fails_only_index_error (text : string) (x : exn) :
  classify text = Fails x -> x = IndexError /\ reaches_open_app text = true.
Proof.
  unfold classify, reaches_open_app, matched_before_open_app.
  destruct (is_greeting text); [discriminate|].
  destruct (is_time text); [discriminate|].
  destruct (is_date text); [discriminate|].
  destruct (is_open_website text).
  { destruct (dict_get _ quick); discriminate. }
  destruct (is_open_app text).
  { intros H. split; [|reflexivity]. revert H. generalize app_prefixes.
    intros ps; induction ps as [|p ps IH]; cbn [app_key_of]; [discriminate|].
    destruct (str_in p text); [|exact IH].
    destruct (nth_error (split_once p text) 1) as [after|];
      [|intros H; now injection H].
    destruct (nth_error (split_ws (strip after)) 0);
      [discriminate | intros H; now injection H]. }
  destruct (is_wikipedia text); [discriminate|].
  destruct (is_weather text).
  { cbv zeta. destruct (mem "in" (split_ws text)) eqn:Hm; [|discriminate].
    apply index_mem in Hm.
    destruct (index "in" (split_ws text)); [|now elim Hm].
    destruct (truthy _); discriminate. }
  destruct (is_send_email text); [discriminate|].
  destruct (is_exit text); discriminate.
Qed.

(** The open-application rule never hands [open_app] an empty key. *)
Lemma open_app_key_nonempty (text key : string) :
  classify text = Routed (OpenApp key) -> key <> EmptyString.
Proof.
  unfold classify.
  destruct (is_greeting text); [discriminate|].
  destruct (is_time text); [discriminate|].
  destruct (is_date text); [discriminate|].
  destruct (is_open_website text).
  { destruct (dict_get _ quick); discriminate. }
  destruct (is_open_app text); [apply app_key_of_nonempty|].
  destruct (is_wikipedia text); [discriminate|].
  destruct (is_weather text).
  { cbv zeta. destruct (mem "in" (split_ws text)); [|discriminate].
    destruct (index "in" (split_ws text)); [|discriminate].
    destruct (truthy _); discriminate. }
  destruct (is_send_email text); [discriminate|].
  destruct (is_exit text); discriminate.
Qed.

(** C2: the claim does not hold of the code.  With nothing after "launch " the
    turn dies with [IndexError]; with "open application" not followed by a
    blank the rule fires and the turn does nothing at all.  [open_app] would
    turn an empty key down, but the rule never calls it with one
    ([open_app_key_nonempty]). *)
Theorem open_app_without_token :
  (reaches_open_app "launch " = true
   /\ classify "launch " = Fails IndexError
   /\ forall e heard,
       run (parse_and_execute e (Some "launch ")) heard
       = Raised IndexError (mkWorld heard []))
  /\ (reaches_open_app "please open application" = true
      /\ classify "please open application" = Routed OpenAppUnmatched
      /\ performs "please open application" [])
  /\ (forall e heard,
         run (open_app e "") heard
         = Done tt (mkWorld heard
             [ESpeak "I don't have a mapping for . You can add it to the apps dict."])).
Proof.
  repeat split; try reflexivity.
Qed.

Lemma app_key_of_cases (text : string) (prefixes : list string) :
  (exists key, app_key_of text prefixes = Routed (OpenApp key))
  \/ app_key_of text prefixes = Routed OpenAppUnmatched
  \/ app_key_of text prefixes = Fails IndexError.
Proof.
  induction prefixes as [|p ps IH]; cbn [app_key_of]; [now right; left|].
  destruct (str_in p text); [|exact IH].
  destruct (nth_error (split_once p text) 1) as [after|]; [|now right; right].
  destruct (nth_error (split_ws (strip after)) 0) as [key|]; [|now right; right].
  left. now exists key.
Qed.

(** C6 (as amended): for an utterance that has an exit keyword in it, the
    place of the exit rule in the chain decides.  When none of the rules
    before it matches (greeting, time, date, open website, open application,
    encyclopedia, weather, e-mail), the utterance is an exit: the turn says
    goodbye and leaves with [sys.exit(0)].  When one of them matches, the
    utterance is classified by the first that does, and never as an exit. *)
Theorem exit_after_earlier_rules (text kw a b : string) :
  In kw exit_keywords -> text = (a ++ kw ++ b)%string ->
  (matched_before_exit text = false ->
   classify text = Routed Exit
   /\ forall e heard,
       run (parse_and_execute e (Some text)) heard
       = Raised (SystemExit 0) (mkWorld heard [ESpeak "Goodbye!"]))
  /\ (is_greeting text = true -> classify text = Routed Greet)
  /\ (is_greeting text = false -> is_time text = true ->
      classify text = Routed TellTime)
  /\ (is_greeting text = false -> is_time text = false -> is_date text = true ->
      classify text = Routed TellDate)
  /\ (is_greeting text = false -> is_time text = false -> is_date text = false ->
      is_open_website text = true ->
      exists target, classify text = Routed (OpenWebsite target))
  /\ (matched_before_open_app text = false -> is_open_app text = true ->
      (exists key, classify text = Routed (OpenApp key))
      \/ classify text = Routed OpenAppUnmatched
      \/ classify text = Fails IndexError)
  /\ (matched_before_open_app text = false -> is_open_app text = false ->
      is_wikipedia text = true ->
      exists topic, classify text = Routed (Encyclopedia topic))
  /\ (matched_before_weather text = false -> is_weather text = true ->
      (exists city, classify text = Routed (Weather city))
      \/ classify text = Routed WeatherMissingCity)
  /\ (matched_before_send_email text = false -> is_send_email text = true ->
      classify text = Routed ComposeEmail)
  /\ (matched_before_exit text = true -> classify text <> Routed Exit).
Proof.
  intros Hkw Htext.
  assert (Hx : is_exit text = true).
  { apply keyword_in. now exists kw, a, b. }
  pose proof (app_key_of_cases text app_prefixes) as Happ.
  pose proof (index_mem "in" (split_ws text)) as Hidx.
  assert (Hweather :
            forall r : routed,
              (if mem "in" (split_ws text)
               then match index "in" (split_ws text) with
                    | None => Fails ValueError
                    | Some idx =>
                        if truthy (join " " (skipn (idx + 1) (split_ws text)))
                        then Routed (Weather (join " " (skipn (idx + 1) (split_ws text))))
                        else Routed WeatherMissingCity
                    end
               else Routed WeatherMissingCity) = r ->
              (exists city, r = Routed (Weather city)) \/ r = Routed WeatherMissingCity).
  { intros r <-. destruct (mem "in" (split_ws text)); [|now right].
    destruct (index "in" (split_ws text)) as [idx|]; [|now elim Hidx].
    destruct (truthy _); [left; eexists; reflexivity | now right]. }
  unfold matched_before_exit, matched_before_send_email, matched_before_weather,
    matched_before_open_app.
  split; [|split; [|split; [|split; [|split; [|split; [|split; [|split; [|split]]]]]]]].
  - intros H. split_no H.
    assert (Hc : classify text = Routed Exit).
    { unfold classify. rewrite_no. now rewrite Hx. }
    split; [exact Hc|]. intros e heard. unfold run.
    rewrite parse_and_execute_dispatch, Hc. reflexivity.
  - intros Hg. unfold classify. now rewrite Hg.
  - intros Hg Ht. unfold classify. now rewrite Hg, Ht.
  - intros Hg Ht Hd. unfold classify. now rewrite Hg, Ht, Hd.
  - intros Hg Ht Hd Hw. unfold classify. rewrite Hg, Ht, Hd, Hw.
    cbv zeta. destruct (dict_get _ quick); eexists; reflexivity.
  - intros H Ha. split_no H. unfold classify. rewrite_no. rewrite Ha. exact Happ.
  - intros H Ha Hw. split_no H. unfold classify. rewrite_no. rewrite Hw.
    eexists; reflexivity.
  - intros H Hw. split_no H. unfold classify. rewrite_no. rewrite Hw.
    cbv zeta. now apply Hweather.
  - intros H Hs. split_no H. unfold classify. rewrite_no. now rewrite Hs.
  - intros H. unfold classify.
    destruct (is_greeting text); [discriminate|].
    destruct (is_time text); [discriminate|].
    destruct (is_date text); [discriminate|].
    destruct (is_open_website text); [destruct (dict_get _ quick); discriminate|].
    destruct (is_open_app text).
    { destruct Happ as [[key Hk]|[Hk|Hk]]; rewrite Hk; discriminate. }
    destruct (is_wikipedia text); [discriminate|].
    destruct (is_weather text).
    { cbv zeta. intros Hc. destruct (Hweather _ Hc) as [[city Hr]|Hr]; discriminate Hr. }
    destruct (is_send_email text); [discriminate|].
    cbn [orb] in H. discriminate H.
Qed.

Lemma exit_after_earlier_rules_witness :
  classify "goodbye, open youtube" = Routed Exit
  /\ classify "hey quit" = Routed Greet
  /\ classify "quit at lunch time" = Routed TellTime
  /\ classify "goodbye, see you another day" = Routed TellDate
  /\ (exists target, classify "open exit" = Routed (OpenWebsite target))
  /\ ((exists key, classify "please launch quit" = Routed (OpenApp key))
      \/ classify "please launch quit" = Routed OpenAppUnmatched
      \/ classify "please launch quit" = Fails IndexError)
  /\ (exists topic, classify "what is shutdown" = Routed (Encyclopedia topic))
  /\ ((exists city, classify "quit the weather" = Routed (Weather city))
      \/ classify "quit the weather" = Routed WeatherMissingCity)
  /\ classify "send email and quit" = Routed ComposeEmail
  /\ classify "open exit" <> Routed Exit.
Proof.
  assert (Hquit : In "quit" exit_keywords) by (left; reflexivity).
  assert (Hexit : In "exit" exit_keywords) by (right; left; reflexivity).
  assert (Hshut : In "shutdown" exit_keywords) by (do 2 right; left; reflexivity).
  assert (Hbye : In "goodbye" exit_keywords) by (do 4 right; left; reflexivity).
  pose proof (exit_after_earlier_rules "goodbye, open youtube" "goodbye" ""
                ", open youtube" Hbye eq_refl) as (H & _).
  pose proof (exit_after_earlier_rules "hey quit" "quit" "hey " ""
                Hquit eq_refl) as (_ & Hg & _).
  pose proof (exit_after_earlier_rules "quit at lunch time" "quit" ""
                " at lunch time" Hquit eq_refl) as (_ & _ & Ht & _).
  pose proof (exit_after_earlier_rules "goodbye, see you another day" "goodbye" ""
                ", see you another day" Hbye eq_refl) as (_ & _ & _ & Hd & _).
  pose proof (exit_after_earlier_rules "open exit" "exit" "open " ""
                Hexit eq_refl) as (_ & _ & _ & _ & Hw & _ & _ & _ & _ & Hn).
  pose proof (exit_after_earlier_rules "please launch quit" "quit" "please launch " ""
                Hquit eq_refl) as (_ & _ & _ & _ & _ & Ha & _).
  pose proof (exit_after_earlier_rules "what is shutdown" "shutdown" "what is " ""
                Hshut eq_refl) as (_ & _ & _ & _ & _ & _ & Hk & _).
  pose proof (exit_after_earlier_rules "quit the weather" "quit" "" " the weather"
                Hquit eq_refl) as (_ & _ & _ & _ & _ & _ & _ & Hr & _).
  pose proof (exit_after_earlier_rules "send email and quit" "quit" "send email and " ""
                Hquit eq_refl) as (_ & _ & _ & _ & _ & _ & _ & _ & Hs & _).
  split; [exact (proj1 (H eq_refl))|].
  split; [exact (Hg eq_refl)|].
  split; [exact (Ht eq_refl eq_refl)|].
  split; [exact (Hd eq_refl eq_refl eq_refl)|].
  split; [exact (Hw eq_refl eq_refl eq_refl eq_refl)|].
  split; [exact (Ha eq_refl eq_refl)|].
  split; [exact (Hk eq_refl eq_refl eq_refl)|].
  split; [exact (Hr eq_refl eq_refl)|].
  split; [exact (Hs eq_refl eq_refl)|].
  exact (Hn eq_refl).
Defined.

(** ** The e-mail dialogue *)

Lemma classify_send_email_rule (text : string) :
  reaches_send_email text = true -> classify text = Routed ComposeEmail.
Proof.
  unfold reaches_send_email, matched_before_send_email, matched_before_weather,
    matched_before_open_app, classify.
  intros H.
  rule_off H (is_greeting text). rule_off H (is_time text). rule_off H (is_date text).
  rule_off H (is_open_website text). rule_off H (is_open_app text).
  rule_off H (is_wikipedia text). rule_off H (is_weather text).
  rewrite H. reflexivity.
Qed.

Lemma send_email_turn (e : env) (text : string) (heard : list (option string)) :
  reaches_send_email text = true ->
  run (parse_and_execute e (Some text)) heard = run email_dialogue heard.
Proof.
  intros H. unfold run.
  rewrite parse_and_execute_dispatch, (classify_send_email_rule _ H). reflexivity.
Qed.

(** The log of a dialogue that was given a recipient. *)
Lemma email_dialogue_with_recipient (to_addr : string) (r2 r3 conf : option string)
      (rest : list (option string)) :
  truthy to_addr = true ->
  run email_dialogue (Some to_addr :: r2 :: r3 :: conf :: rest)
  = Done tt (mkWorld rest
      [ESpeak "Who is the recipient? Please say the email address.";
       EListen 8 6 (Some to_addr);
       ESpeak "What is the subject?";
       EListen 8 8 r2;
       ESpeak "Tell me the message.";
       EListen 12 20 r3;
       ESpeak ("Sending email to " ++ to_addr ++ " with subject "
               ++ or_else r2 "No subject" ++ ". Confirm by saying yes.")%string;
       EListen 5 3 conf;
       if affirmative conf
       then ESendEmail to_addr (or_else r2 "No subject") (or_else r3 "")
       else ESpeak "Email cancelled."]).
Proof.
  intros Hto. unfold run, email_dialogue, bind, speak, send_email, emit, listen.
  cbn [pending log app]. rewrite Hto. cbn [pending log app].
  destruct (affirmative conf); reflexivity.
Qed.

Lemma sends_In (a s b : string) (l : list event) :
  In (ESendEmail a s b) l -> 1 <= sends l.
Proof.
  unfold sends. induction l as [|ev l IH]; simpl; [contradiction|].
  intros [->|H]; simpl; [lia|].
  specialize (IH H). destruct (is_send ev); simpl; lia.
Qed.

(** Every way the dialogue can go: it sends nothing, or the microphone
    delivered a recipient and, as fourth text, a confirmation with "yes" in
    it, and the one send is the last event, right after that confirmation. *)
Lemma email_dialogue_cases (heard : list (option string)) :
  sends (events_of (run email_dialogue heard)) = 0
  \/ exists to_addr r2 r3 conf rest before,
      heard = Some to_addr :: r2 :: r3 :: Some conf :: rest
      /\ str_in "yes" conf = true
      /\ sends before = 0
      /\ events_of (run email_dialogue heard)
         = before ++ [EListen 5 3 (Some conf);
                      ESendEmail to_addr (or_else r2 "No subject") (or_else r3 "")].
Proof.
  destruct heard as [|[to_addr|] h1]; [left; reflexivity | | left; reflexivity].
  destruct (truthy to_addr) eqn:Hto.
  2:{ left. unfold run, email_dialogue, bind, speak, emit, listen.
      cbn [pending log app]. rewrite Hto. reflexivity. }
  assert (Hpad : forall r2 r3, sends (events_of
            (run email_dialogue [Some to_addr; r2; r3])) = 0
          /\ sends (events_of (run email_dialogue [Some to_addr; r2])) = 0
          /\ sends (events_of (run email_dialogue [Some to_addr])) = 0).
  { intros r2 r3. unfold run, email_dialogue, bind, speak, emit, listen.
    cbn [pending log app]. rewrite Hto. repeat split; reflexivity. }
  destruct h1 as [|r2 [|r3 [|conf rest]]];
    try (left; apply (Hpad None None)).
  - left. apply (Hpad r2 None).
  - left. apply (Hpad r2 r3).
  - rewrite (email_dialogue_with_recipient _ _ _ _ _ Hto). cbn [events_of log].
    destruct conf as [c|]; [|left; reflexivity].
    destruct (affirmative (Some c)) eqn:Hc; [|left; reflexivity].
    right. exists to_addr, r2, r3, c, rest.
    eexists. split; [reflexivity|].
    cbn [affirmative] in Hc. apply andb_true_iff in Hc as [_ Hyes].
    split; [exact Hyes|].
    split; [|change (?x :: ?y :: ?z :: ?u :: ?v :: ?w :: ?t :: ?l)
               with ([x; y; z; u; v; w; t] ++ l); reflexivity].
    reflexivity.
Qed.

Lemma sends_app (l1 l2 : list event) : sends (l1 ++ l2) = sends l1 + sends l2.
Proof. unfold sends. now rewrite filter_app, length_app. Qed.

(** Only the e-mail branch calls [send_email]. *)
Lemma handle_no_send (e : env) (i : intent) (heard : list (option string)) :
  i <> ComposeEmail -> sends (events_of (run (handle e i) heard)) = 0.
Proof.
  intros Hi.
  destruct i as [ | | | target | app_key | | topic | city | | | | raw];
    try (now elim Hi); try reflexivity.
  unfold run, handle, open_app, launch_posix, bind, speak, emit, raise, ret.
  repeat match goal with
         | |- context [match ?x with _ => _ end] => destruct x
         end; reflexivity.
Qed.

Lemma turn_sends (e : env) (utterance : option string) (heard : list (option string)) :
  sends (events_of (run (parse_and_execute e utterance) heard)) = 0
  \/ exists to_addr r2 r3 conf rest before,
      heard = Some to_addr :: r2 :: r3 :: Some conf :: rest
      /\ str_in "yes" conf = true
      /\ sends before = 0
      /\ events_of (run (parse_and_execute e utterance) heard)
         = before ++ [EListen 5 3 (Some conf);
                      ESendEmail to_addr (or_else r2 "No subject") (or_else r3 "")].
Proof.
  destruct utterance as [text|]; [|left; reflexivity].
  unfold run. rewrite parse_and_execute_dispatch.
  destruct (classify text) as [i|x]; [|left; reflexivity].
  change (dispatch e (Routed i) (mkWorld heard [])) with (run (handle e i) heard).
  destruct i; try (left; apply handle_no_send; discriminate).
  exact (email_dialogue_cases heard).
Qed.

(** C3: when the microphone delivers "a@b.com", "hi", "test body" and "yes",
    the dialogue ends in Sent and [send_email] is called exactly once, with
    these three values; and in every turn [send_email] is called at most
    once, and a call of it is the last event, right after a confirmation
    that was heard and has "yes" in it. *)
Theorem email_sent_once_after_yes :
  (forall e : env,
      let l := events_of (run (parse_and_execute e (Some "send email"))
                              [Some "a@b.com"; Some "hi"; Some "test body"; Some "yes"]) in
      email_end l = Some Sent
      /\ filter is_send l = [ESendEmail "a@b.com" "hi" "test body"])
  /\ (forall (e : env) (utterance : option string) (heard : list (option string)),
         let l := events_of (run (parse_and_execute e utterance) heard) in
         sends l <= 1
         /\ forall a s b, In (ESendEmail a s b) l ->
              exists before conf,
                l = before ++ [EListen 5 3 (Some conf); ESendEmail a s b]
                /\ str_in "yes" conf = true
                /\ sends before = 0).
Proof.
  split.
  - intros e. split; reflexivity.
  - intros e utterance heard l.
    destruct (turn_sends e utterance heard)
      as [H0|(to_addr & r2 & r3 & conf & rest & before & _ & Hyes & Hb & Hl)];
      fold l in H0 || fold l in Hl.
    + split; [lia|]. intros a s b Hin. apply sends_In in Hin. lia.
    + split.
      * rewrite Hl, sends_app, Hb. cbn. lia.
      * intros a s b Hin. exists before, conf.
        rewrite Hl in Hin. apply in_app_or in Hin as [Hin|Hin].
        { apply sends_In in Hin. lia. }
        destruct Hin as [Hin|[Hin|[]]]; [discriminate Hin|].
        rewrite <- Hin. auto.
Qed.

(** C4: when the dialogue has come to the confirmation and the microphone
    then delivers nothing, or a text without "yes" in it, the dialogue ends
    in Cancelled and [send_email] is not called. *)
Theorem confirmation_refused_cancels (e : env) (text to_addr : string)
        (r2 r3 conf : option string) (rest : list (option string)) :
  reaches_send_email text = true ->
  truthy to_addr = true ->
  (conf = None \/ exists c, conf = Some c /\ str_in "yes" c = false) ->
  let o := run (parse_and_execute e (Some text))
               (Some to_addr :: r2 :: r3 :: conf :: rest) in
  email_end (events_of o) = Some Cancelled
  /\ sends (events_of o) = 0
  /\ raised_of o = None.
Proof.
  intros Hr Hto Hconf o. subst o.
  rewrite (send_email_turn _ _ _ Hr), (email_dialogue_with_recipient _ _ _ _ _ Hto).
  assert (Hno : affirmative conf = false).
  { destruct Hconf as [->|(c & -> & Hc)]; [reflexivity|].
    cbn [affirmative]. rewrite Hc. apply andb_false_r. }
  rewrite Hno. repeat split.
Qed.

Lemma confirmation_refused_cancels_witness :
  (let o := run (parse_and_execute linux_env (Some "send email"))
                [Some "a@b.com"; Some "hi"; Some "test body"; None] in
   email_end (events_of o) = Some Cancelled /\ sends (events_of o) = 0
   /\ raised_of o = None)
  /\ (let o := run (parse_and_execute linux_env (Some "send an email"))
                   [Some "a@b.com"; Some "hi"; Some "test body"; Some "no"] in
      email_end (events_of o) = Some Cancelled /\ sends (events_of o) = 0
      /\ raised_of o = None).
Proof.
  split.
  - refine (confirmation_refused_cancels linux_env "send email" "a@b.com"
              (Some "hi") (Some "test body") None [] _ _ _).
    + reflexivity.
    + reflexivity.
    + left. reflexivity.
  - refine (confirmation_refused_cancels linux_env "send an email" "a@b.com"
              (Some "hi") (Some "test body") (Some "no") [] _ _ _).
    + reflexivity.
    + reflexivity.
    + right. exists "no". split; reflexivity.
Defined.

(** C5: in the e-mail dialogue, when nothing is heard for the recipient the
    dialogue is cancelled at once: no other slot is asked for and nothing is
    sent; when nothing is heard for the subject, the subject is "No subject"
    and the dialogue goes on to the body; when nothing is heard for the
    body, the body is empty and the dialogue goes on to the confirmation. *)
Theorem email_slot_defaults (e : env) (text : string) :
  reaches_send_email text = true ->
  (forall rest,
      run (parse_and_execute e (Some text)) (None :: rest)
      = Done tt (mkWorld rest
          [ESpeak "Who is the recipient? Please say the email address.";
           EListen 8 6 None;
           ESpeak "Recipient not provided. Cancelling."]))
  /\ (forall to_addr r3 conf rest,
         truthy to_addr = true ->
         run (parse_and_execute e (Some text)) (Some to_addr :: None :: r3 :: conf :: rest)
         = Done tt (mkWorld rest
             [ESpeak "Who is the recipient? Please say the email address.";
              EListen 8 6 (Some to_addr);
              ESpeak "What is the subject?";
              EListen 8 8 None;
              ESpeak "Tell me the message.";
              EListen 12 20 r3;
              ESpeak ("Sending email to " ++ to_addr
                      ++ " with subject No subject. Confirm by saying yes.")%string;
              EListen 5 3 conf;
              if affirmative conf
              then ESendEmail to_addr "No subject" (or_else r3 "")
              else ESpeak "Email cancelled."]))
  /\ (forall to_addr r2 conf rest,
         truthy to_addr = true ->
         run (parse_and_execute e (Some text)) (Some to_addr :: r2 :: None :: conf :: rest)
         = Done tt (mkWorld rest
             [ESpeak "Who is the recipient? Please say the email address.";
              EListen 8 6 (Some to_addr);
              ESpeak "What is the subject?";
              EListen 8 8 r2;
              ESpeak "Tell me the message.";
              EListen 12 20 None;
              ESpeak ("Sending email to " ++ to_addr ++ " with subject "
                      ++ or_else r2 "No subject" ++ ". Confirm by saying yes.")%string;
              EListen 5 3 conf;
              if affirmative conf
              then ESendEmail to_addr (or_else r2 "No subject") ""
              else ESpeak "Email cancelled."])).
Proof.
  intros Hr. split; [|split].
  - intros rest. rewrite (send_email_turn _ _ _ Hr). reflexivity.
  - intros to_addr r3 conf rest Hto.
    rewrite (send_email_turn _ _ _ Hr), (email_dialogue_with_recipient _ _ _ _ _ Hto).
    reflexivity.
  - intros to_addr r2 conf rest Hto.
    rewrite (send_email_turn _ _ _ Hr), (email_dialogue_with_recipient _ _ _ _ _ Hto).
    reflexivity.
Qed.

Lemma email_slot_defaults_witness :
  events_of (run (parse_and_execute linux_env (Some "send email")) [None])
  = [ESpeak "Who is the recipient? Please say the email address.";
     EListen 8 6 None;
     ESpeak "Recipient not provided. Cancelling."]
  /\ filter is_send
       (events_of (run (parse_and_execute linux_env (Some "send email"))
                       [Some "a@b.com"; None; None; Some "yes"]))
     = [ESendEmail "a@b.com" "No subject" ""].
Proof.
  split.
  - exact (f_equal events_of
             (proj1 (email_slot_defaults linux_env "send email" eq_refl) [])).
  - exact (f_equal (fun o => filter is_send (events_of o))
             (proj1 (proj2 (email_slot_defaults linux_env "send email" eq_refl))
                "a@b.com" None (Some "yes") [] eq_refl)).
Defined.

(** * Further properties of the program *)

(** ** What a computation does does not depend on the log it starts from *)

Lemma prepend_log_app {A : Type} (l1 l2 : list event) (o : outcome A) :
  prepend_log l1 (prepend_log l2 o) = prepend_log (l1 ++ l2) o.
Proof. destruct o as [a w|x w]; cbn; now rewrite app_assoc. Qed.

Lemma framed_ret {A : Type} (a : A) : framed (ret a).
Proof. intros p l. cbn. now rewrite app_nil_r. Qed.

Lemma framed_raise {A : Type} (x : exn) : framed (@raise A x).
Proof. intros p l. cbn. now rewrite app_nil_r. Qed.

Lemma framed_emit (ev : event) : framed (emit ev).
Proof. intros p l. reflexivity. Qed.

Lemma framed_listen (t1 t2 : nat) : framed (listen t1 t2).
Proof. intros p l. unfold listen. cbn. destruct p; reflexivity. Qed.

Lemma framed_bind {A B : Type} (m : M A) (k : A -> M B) :
  framed m -> (forall a, framed (k a)) -> framed (bind m k).
Proof.
  intros Hm Hk p l. unfold bind. rewrite (Hm p l).
  destruct (m (mkWorld p [])) as [a [p' l']|x [p' l']]; cbn; [|reflexivity].
  rewrite (Hk a p' (l ++ l')), (Hk a p' l'). now rewrite prepend_log_app.
Qed.

(** Breaks a computation into its binds and its case distinctions. *)
Ltac framed_steps :=
  repeat first
    [ apply framed_ret | apply framed_raise | apply framed_emit | apply framed_listen
    | apply framed_bind; [|intros ?]
    | match goal with
      | |- framed (match ?x with _ => _ end) => destruct x
      | |- framed (let _ := _ in _) => cbv zeta
      end ].

Lemma framed_open_website (url : string) : framed (open_website url).
Proof. unfold open_website, speak. framed_steps. Qed.

Lemma framed_open_app (e : env) (key : string) : framed (open_app e key).
Proof. unfold open_app, launch_posix, speak. framed_steps. Qed.

Lemma framed_email_dialogue : framed email_dialogue.
Proof. unfold email_dialogue, speak, send_email. framed_steps. Qed.

Lemma framed_handle (e : env) (i : intent) : framed (handle e i).
Proof.
  destruct i; cbn [handle];
    first [ apply framed_open_website | apply framed_open_app
          | apply framed_email_dialogue
          | unfold speak, tell_time, tell_date, search_wikipedia, get_weather,
              fallback_search; framed_steps ].
Qed.

Lemma framed_parse_and_execute (e : env) (utterance : option string) :
  framed (parse_and_execute e utterance).
Proof.
  intros p l. destruct utterance as [text|]; [|apply framed_ret].
  rewrite !parse_and_execute_dispatch.
  destruct (classify text) as [i|x]; [apply framed_handle | apply framed_raise].
Qed.

(** ** Every run of the e-mail dialogue *)

(** The dialogue on any microphone input, a microphone that has run dry
    included ([nth] and [skipn] past the end give silence and nothing). *)
Lemma email_dialogue_run (heard : list (option string)) :
  run email_dialogue heard =
    match nth 0 heard None with
    | Some to_addr =>
        if truthy to_addr
        then Done tt (mkWorld (skipn 4 heard)
                        (dialogue_log_full to_addr (nth 1 heard None)
                           (nth 2 heard None) (nth 3 heard None)))
        else Done tt (mkWorld (skipn 1 heard) (dialogue_log_short (Some to_addr)))
    | None => Done tt (mkWorld (skipn 1 heard) (dialogue_log_short None))
    end.
Proof.
  unfold run, email_dialogue, bind, speak, emit, listen, send_email,
    dialogue_log_full, dialogue_log_short.
  destruct heard as [|[a|] h1]; cbn [pending log app nth skipn]; try reflexivity.
  destruct (truthy a); [|reflexivity].
  destruct h1 as [|r2 [|r3 [|conf rest]]]; cbn [pending log app nth skipn];
    try reflexivity.
  destruct (affirmative conf); reflexivity.
Qed.

Lemma world_of_prepend_log {A : Type} (l : list event) (o : outcome A) :
  pending (world_of (prepend_log l o)) = pending (world_of o).
Proof. destruct o; reflexivity. Qed.

Lemma raised_of_prepend_log {A : Type} (l : list event) (o : outcome A) :
  raised_of (prepend_log l o) = raised_of o.
Proof. destruct o; reflexivity. Qed.

(** ** What the parsing itself can raise *)

Lemma split_once_found (sep s before : string) :
  str_in sep s = true ->
  exists b a, split_once_from sep before s = [b; a].
Proof.
  revert before. induction s as [|c s IH]; intros before H;
    cbn [str_in] in H; cbn [split_once_from].
  - rewrite orb_false_r in H. rewrite H. eauto.
  - destruct (String.prefix sep (String c s)); [eauto|].
    cbn [orb] in H. apply IH. exact H.
Qed.

Lemma app_key_of_fails (text : string) (prefixes : list string) (x : exn) :
  app_key_of text prefixes = Fails x ->
  exists prefix before after,
    In prefix prefixes
    /\ str_in prefix text = true
    /\ split_once prefix text = [before; after]
    /\ split_ws (strip after) = [].
Proof.
  induction prefixes as [|p ps IH]; cbn [app_key_of]; [discriminate|].
  destruct (str_in p text) eqn:Hin.
  - destruct (split_once_found p text EmptyString Hin) as (b0 & a0 & Hs).
    fold (split_once p text) in Hs. rewrite Hs.
    change (nth_error [b0; a0] 1) with (Some a0). cbv iota.
    destruct (split_ws (strip a0)) as [|w ws] eqn:Hw; [|discriminate].
    intros _. exists p, b0, a0. repeat split; try assumption. now left.
  - intros H. destruct (IH H) as (q & b0 & a0 & Hq & Hrest).
    exists q, b0, a0. split; [now right | exact Hrest].
Qed.

Lemma classify_open_app_rule (text : string) :
  reaches_open_app text = true -> classify text = app_key_of text app_prefixes.
Proof.
  unfold reaches_open_app, matched_before_open_app, classify. intros H.
  rule_off H (is_greeting text). rule_off H (is_time text). rule_off H (is_date text).
  rule_off H (is_open_website text). now rewrite H.
Qed.

(** The parsing of a turn, the string work that comes before any helper is
    called, can raise in one place only: the [split()[0]] of the
    open-application rule, with [IndexError], when nothing but white space
    follows the first prefix found.  The [split(prefix, 1)[1]] before it
    always has its second part, and the [words.index("in")] of the weather
    rule never raises [ValueError], since it is asked for a word that is
    there.  The turn then ends with that [IndexError], nothing done. *)
Theorem parsing_raises_only_index_error (text : string) (x : exn) :
  classify text = Fails x ->
  x = IndexError
  /\ reaches_open_app text = true
  /\ (exists prefix before after,
         In prefix app_prefixes
         /\ str_in prefix text = true
         /\ split_once prefix text = [before; after]
         /\ split_ws (strip after) = [])
  /\ forall e w, parse_and_execute e (Some text) w = Raised IndexError w.
Proof.
  intros Hc. destruct (classify_fails_only_index_error text x Hc) as [-> Hr].
  split; [reflexivity|]. split; [exact Hr|]. split.
  - rewrite (classify_open_app_rule text Hr) in Hc. now apply (app_key_of_fails _ _ _ Hc).
  - intros e w. now rewrite parse_and_execute_dispatch, Hc.
Qed.

Lemma parsing_raises_only_index_error_witness :
  IndexError = IndexError
  /\ reaches_open_app "please launch " = true
  /\ (exists prefix before after,
         In prefix app_prefixes
         /\ str_in prefix "please launch " = true
         /\ split_once prefix "please launch " = [before; after]
         /\ split_ws (strip after) = [])
  /\ forall e w, parse_and_execute e (Some "please launch ") w = Raised IndexError w.
Proof.
  exact (parsing_raises_only_index_error "please launch " IndexError eq_refl).
Defined.

(** ** Who reads the microphone *)

Lemma handle_keeps_microphone (e : env) (i : intent) (p : list (option string)) :
  i <> ComposeEmail -> pending (world_of (handle e i (mkWorld p []))) = p.
Proof.
  intros Hi.
  destruct i as [ | | | target | key | | topic | city | | | | raw];
    try (now elim Hi); try reflexivity.
  unfold handle, open_app, launch_posix, bind, speak, emit, raise, ret.
  repeat match goal with
         | |- context [match ?x with _ => _ end] => destruct x
         end; reflexivity.
Qed.

(** Within a turn only the e-mail dialogue listens.  A turn leaves the
    microphone as it found it, but for a send-email command: then it takes
    one text when that text is no recipient (nothing, or empty), and four
    otherwise.  What it takes is not parsed as a command. *)
Theorem turn_microphone (e : env) (utterance : option string) (w : world) :
  exists k,
    pending (world_of (parse_and_execute e utterance w)) = skipn k (pending w)
    /\ (utterance = None -> k = 0)
    /\ (forall text, utterance = Some text ->
          (classify text <> Routed ComposeEmail -> k = 0)
          /\ (classify text = Routed ComposeEmail ->
              k = if otruthy (nth 0 (pending w) None) then 4 else 1)).
Proof.
  destruct w as [p l]. rewrite framed_parse_and_execute, world_of_prepend_log.
  cbn [pending].
  destruct utterance as [text|].
  2:{ exists 0. split; [reflexivity|]. split; [reflexivity|].
      intros text' H. discriminate H. }
  rewrite parse_and_execute_dispatch.
  destruct (classify text) as [i|x] eqn:Hc.
  - assert (Hdec : i = ComposeEmail \/ i <> ComposeEmail).
    { destruct i; (now left) || (right; discriminate). }
    destruct Hdec as [->|Hi].
    + exists (if otruthy (nth 0 p None) then 4 else 1).
      split; [|split; [discriminate|]].
      * cbn [dispatch handle].
        change (email_dialogue (mkWorld p [])) with (run email_dialogue p).
        rewrite email_dialogue_run.
        destruct (nth 0 p None) as [a|]; cbn [otruthy];
          [destruct (truthy a)|]; reflexivity.
      * intros text' Ht. injection Ht as <-.
        split; [intros H; now elim H | intros _; reflexivity].
    + exists 0. split; [|split; [discriminate|]].
      * cbn [dispatch skipn]. now apply handle_keeps_microphone.
      * intros text' Ht. injection Ht as <-. split; [reflexivity|].
        intros H. rewrite Hc in H. injection H as ->. now elim Hi.
  - exists 0. split; [reflexivity|]. split; [discriminate|].
    intros text' Ht. injection Ht as <-.
    split; [reflexivity | rewrite Hc; discriminate].
Qed.

(** ** What goes to the browser *)

(** Whatever the utterance, every URL a turn hands to [webbrowser.open]
    starts with "http": a website target that does not gets "https://" in
    front, and the fall-back search opens a fixed https address. *)
Theorem browser_urls_start_with_http (e : env) (utterance : option string)
        (heard : list (option string)) :
  forallb url_event_ok (events_of (run (parse_and_execute e utterance) heard)) = true.
Proof.
  destruct utterance as [text|]; [|reflexivity].
  unfold run. rewrite parse_and_execute_dispatch.
  destruct (classify text) as [i|x]; [|reflexivity].
  destruct i as [ | | | target | key | | topic | city | | | | raw];
    try reflexivity.
  - cbn [dispatch handle]. unfold open_website, bind, speak, emit.
    destruct (startswith target "http") eqn:E;
      [cbn -[startswith]; now rewrite E | reflexivity].
  - cbn [dispatch handle].
    unfold open_app, launch_posix, bind, speak, emit, raise, ret.
    repeat match goal with
           | |- context [match ?x with _ => _ end] => destruct x
           end; reflexivity.
  - cbn [dispatch handle].
    change (email_dialogue (mkWorld heard [])) with (run email_dialogue heard).
    rewrite email_dialogue_run. unfold dialogue_log_full, dialogue_log_short.
    destruct (nth 0 heard None) as [a|]; [destruct (truthy a)|]; try reflexivity.
    destruct (affirmative (nth 3 heard None)); reflexivity.
Qed.

(** ** The confirmation of the e-mail dialogue *)

(** The confirmation is a substring test: once the dialogue has a recipient,
    any text heard at the confirmation that has "yes" somewhere in it, as in
    "yesterday", sends the e-mail, with the recipient as heard and with the
    subject and the body as heard or as defaulted. *)
Theorem confirmation_with_yes_sends (e : env) (text to_addr a b : string)
        (r2 r3 : option string) (rest : list (option string)) :
  reaches_send_email text = true ->
  truthy to_addr = true ->
  let o := run (parse_and_execute e (Some text))
               (Some to_addr :: r2 :: r3 :: Some (a ++ "yes" ++ b)%string :: rest) in
  email_end (events_of o) = Some Sent
  /\ filter is_send (events_of o)
     = [ESendEmail to_addr (or_else r2 "No subject") (or_else r3 "")]
  /\ raised_of o = None.
Proof.
  intros Hr Hto o. subst o.
  rewrite (send_email_turn _ _ _ Hr), (email_dialogue_with_recipient _ _ _ _ _ Hto).
  assert (Hyes : affirmative (Some (a ++ "yes" ++ b)%string) = true).
  { cbn [affirmative]. apply andb_true_iff. split.
    - destruct a; reflexivity.
    - apply str_in_app. now exists a, b. }
  rewrite Hyes. repeat split.
Qed.

Lemma confirmation_with_yes_sends_witness :
  let o := run (parse_and_execute linux_env (Some "send email"))
               [Some "a@b.com"; None; Some "see you"; Some "yesterday"] in
  email_end (events_of o) = Some Sent
  /\ filter is_send (events_of o) = [ESendEmail "a@b.com" "No subject" "see you"]
  /\ raised_of o = None.
Proof.
  exact (confirmation_with_yes_sends linux_env "send email" "a@b.com" "" "terday"
           None (Some "see you") [] eq_refl eq_refl).
Defined.

(** ** The main loop *)

(** An utterance of the exit rule ends the loop with [SystemExit 0] right
    after the goodbye; what the microphone would deliver after it is never
    listened to, however many rounds were still to come. *)
Theorem main_loop_stops_at_exit (e : env) (n : nat) (text : string)
        (rest : list (option string)) :
  classify text = Routed Exit ->
  run (main_loop e (S n)) (Some text :: rest)
  = Raised (SystemExit 0)
      (mkWorld rest
         [ESpeak "Assistant online. Say 'hello' to start, or say a command.";
          EListen 5 8 (Some text);
          ESpeak "Goodbye!"]).
Proof.
  intros Hc. unfold run, main_loop, bind, speak, emit. cbn [turns].
  unfold bind, listen. cbn [pending log app].
  rewrite parse_and_execute_dispatch, Hc. reflexivity.
Qed.

Lemma main_loop_stops_at_exit_witness :
  run (main_loop linux_env 3) [Some "goodbye"; Some "open youtube"; Some "hello"]
  = Raised (SystemExit 0)
      (mkWorld [Some "open youtube"; Some "hello"]
         [ESpeak "Assistant online. Say 'hello' to start, or say a command.";
          EListen 5 8 (Some "goodbye");
          ESpeak "Goodbye!"]).
Proof.
  exact (main_loop_stops_at_exit linux_env 2 "goodbye"
           [Some "open youtube"; Some "hello"] eq_refl).
Defined.

(** Silence never ends the loop and never makes it act: [k] rounds in which
    nothing is heard leave [k] listens in the log and nothing else. *)
Theorem silent_rounds (e : env) (k : nat) (rest : list (option string))
        (l : list event) :
  turns e k (mkWorld (repeat None k ++ rest) l)
  = Done tt (mkWorld rest (l ++ repeat (EListen 5 8 None) k)).
Proof.
  revert l. induction k as [|k IH]; intros l.
  - cbn. now rewrite app_nil_r.
  - cbn [turns repeat app]. unfold bind at 1. unfold listen at 1.
    cbn [pending log]. unfold bind at 1. cbn [parse_and_execute ret].
    rewrite IH. now rewrite <- app_assoc.
Qed.

(** The e-mail dialogue owns the microphone: in the round of a send-email
    command the four texts heard next fill the dialogue and are never run as
    commands, an exit word included; the loop goes on with what comes after
    them. *)
Theorem dialogue_owns_microphone (e : env) (n : nat) (text to_addr : string)
        (r2 r3 conf : option string) (rest : list (option string)) (l : list event) :
  reaches_send_email text = true ->
  truthy to_addr = true ->
  turns e (S n) (mkWorld (Some text :: Some to_addr :: r2 :: r3 :: conf :: rest) l)
  = turns e n
      (mkWorld rest
         (l ++ EListen 5 8 (Some text) :: dialogue_log_full to_addr r2 r3 conf)).
Proof.
  intros Hr Hto. cbn [turns]. unfold bind at 1. unfold listen at 1.
  cbn [pending log]. unfold bind at 1.
  rewrite framed_parse_and_execute.
  change (parse_and_execute e (Some text) (mkWorld ?p []))
    with (run (parse_and_execute e (Some text)) p).
  rewrite (send_email_turn _ _ _ Hr), (email_dialogue_with_recipient _ _ _ _ _ Hto).
  cbn [prepend_log pending log]. unfold dialogue_log_full.
  now rewrite <- app_assoc.
Qed.

Lemma dialogue_owns_microphone_witness :
  turns linux_env 2
    (mkWorld [Some "send email"; Some "quit"; Some "exit"; Some "goodbye";
              Some "shutdown"; Some "hello"] [])
  = Done tt
      (mkWorld []
         ((EListen 5 8 (Some "send email")
           :: dialogue_log_full "quit" (Some "exit") (Some "goodbye") (Some "shutdown"))
          ++ [EListen 5 8 (Some "hello"); ESpeak "Hello! How can I help you?"])).
Proof.
  exact (eq_trans
           (dialogue_owns_microphone linux_env 1 "send email" "quit"
              (Some "exit") (Some "goodbye") (Some "shutdown") [Some "hello"] []
              eq_refl eq_refl)
           eq_refl).
Defined.

(** ** The open-website rule comes before the open-application rule *)

(** An utterance that starts with "open " never reaches [open_app]: it is a
    greeting, a time or a date request, or a website to open.  So the
    phrasings "open app ..." and "open application ..." launch nothing when
    they start the utterance: no process is started and the application rule
    does not even fail. *)
Theorem open_prefix_never_launches (text : string) :
  startswith text "open " = true ->
  (forall key, classify text <> Routed (OpenApp key))
  /\ (forall x, classify text <> Fails x)
  /\ (forall e heard argv,
         ~ In (EPopen argv) (events_of (run (parse_and_execute e (Some text)) heard))).
Proof.
  intros H.
  assert (Hc : classify text = Routed Greet \/ classify text = Routed TellTime
               \/ classify text = Routed TellDate
               \/ exists target, classify text = Routed (OpenWebsite target)).
  { unfold classify, is_open_website. rewrite H.
    destruct (is_greeting text); [now left|].
    destruct (is_time text); [now right; left|].
    destruct (is_date text); [now right; right; left|].
    right. right. right. destruct (dict_get _ quick); eauto. }
  split; [|split].
  - intros key Hk. rewrite Hk in Hc.
    destruct Hc as [Hc|[Hc|[Hc|[t Hc]]]]; discriminate Hc.
  - intros x Hx. rewrite Hx in Hc.
    destruct Hc as [Hc|[Hc|[Hc|[t Hc]]]]; discriminate Hc.
  - intros e heard argv. unfold run. rewrite parse_and_execute_dispatch.
    destruct Hc as [Hc|[Hc|[Hc|[t Hc]]]]; rewrite Hc; cbn;
      intros Hin; repeat destruct Hin as [Hin|Hin]; try discriminate Hin; exact Hin.
Qed.

Lemma open_prefix_never_launches_witness :
  (forall key, classify "open app calculator" <> Routed (OpenApp key))
  /\ (forall x, classify "open app calculator" <> Fails x)
  /\ (forall e heard argv,
         ~ In (EPopen argv)
             (events_of (run (parse_and_execute e (Some "open app calculator")) heard))).
Proof. exact (open_prefix_never_launches "open app calculator" eq_refl). Defined.

(** ** The query of the fall-back search *)

Lemma prefix_empty (s : string) : String.prefix "" s = true.
Proof. destruct s; reflexivity. Qed.

Lemma replace_blank_cons (c : ascii) (s : string) :
  replace " " "+" (String c s)
  = String (if Ascii.eqb c " " then "+"%char else c) (replace " " "+" s).
Proof.
  unfold replace. cbn [replace_from String.prefix].
  destruct (ascii_dec " " c) as [<-|Hne].
  - rewrite prefix_empty. reflexivity.
  - destruct (Ascii.eqb c " ") eqn:E; [|reflexivity].
    apply Ascii.eqb_eq in E. now elim Hne.
Qed.

Lemma replace_blank_get (s : string) (n : nat) :
  String.get n (replace " " "+" s)
  = option_map (fun c => if Ascii.eqb c " " then "+"%char else c) (String.get n s).
Proof.
  revert n. induction s as [|c s IH]; intros n; [reflexivity|].
  rewrite replace_blank_cons. destruct n as [|n]; cbn [String.get option_map].
  - reflexivity.
  - apply IH.
Qed.

Lemma replace_blank_free (s : string) : str_in " " (replace " " "+" s) = false.
Proof.
  induction s as [|c s IH]; [reflexivity|].
  rewrite replace_blank_cons. cbn [str_in String.prefix]. rewrite IH, orb_false_r.
  destruct (Ascii.eqb c " ") eqn:E.
  - reflexivity.
  - destruct (ascii_dec " " c) as [<-|Hne]; [|reflexivity].
    now rewrite Ascii.eqb_refl in E.
Qed.

Lemma replace_blank_length (s : string) :
  String.length (replace " " "+" s) = String.length s.
Proof.
  induction s as [|c s IH]; [reflexivity|].
  rewrite replace_blank_cons. cbn [String.length]. now rewrite IH.
Qed.

(** When no rule matches, the turn says so and opens a Google search whose
    query is the utterance with every blank turned into "+", character by
    character: the query has the length of the utterance and no blank, and
    every other character, a tab or an ampersand included, goes into the URL
    as it is. *)
Theorem fallback_query (text : string) :
  classify text = Routed (Unrecognized text) ->
  exists q,
    performs text
      [ESpeak "I didn't catch a command. I can search the web or Wikipedia. Searching the web for your phrase.";
       EBrowserOpen ("https://www.google.com/search?q=" ++ q)%string]
    /\ String.length q = String.length text
    /\ str_in " " q = false
    /\ forall n, String.get n q
                 = option_map (fun c => if Ascii.eqb c " " then "+"%char else c)
                              (String.get n text).
Proof.
  intros Hc. exists (replace " " "+" text). split; [|split; [|split]].
  - apply (performs_handle text _ _ Hc). reflexivity.
  - apply replace_blank_length.
  - apply replace_blank_free.
  - apply replace_blank_get.
Qed.

Lemma fallback_query_witness :
  exists q,
    performs "play some music & more"
      [ESpeak "I didn't catch a command. I can search the web or Wikipedia. Searching the web for your phrase.";
       EBrowserOpen ("https://www.google.com/search?q=" ++ q)%string]
    /\ String.length q = String.length "play some music & more"
    /\ str_in " " q = false
    /\ forall n, String.get n q
                 = option_map (fun c => if Ascii.eqb c " " then "+"%char else c)
                              (String.get n "play some music & more").
Proof. exact (fallback_query "play some music & more" eq_refl). Defined.

(** ** What the encyclopedia is asked *)

Lemma replace_from_skip (old new x s : string) :
  replace_from old new (String.length x) (x ++ s) = replace_from old new 0 s.
Proof.
  induction x as [|c x IH]; cbn [String.length append].
  - destruct s; reflexivity.
  - cbn [replace_from]. exact IH.
Qed.

Lemma replace_prefix (c : ascii) (old new s : string) :
  replace (String c old) new (String c old ++ s) = (new ++ replace (String c old) new s)%string.
Proof.
  unfold replace. cbn [append]. cbn [replace_from].
  assert (Hp : String.prefix (String c old) (String c (old ++ s)) = true).
  { apply prefix_app. now exists s. }
  rewrite Hp.
  assert (Hl : String.length (String c old) - 1 = String.length old)
    by (cbn [String.length]; lia).
  rewrite Hl. now rewrite replace_from_skip.
Qed.

Lemma replace_absent (old new s : string) :
  str_in old s = false -> replace old new s = s.
Proof.
  unfold replace. induction s as [|c s IH]; [reflexivity|].
  cbn [str_in replace_from]. intros H. apply orb_false_iff in H as [Hp Hs].
  rewrite Hp, (IH Hs). reflexivity.
Qed.

(** The topic given to Wikipedia is what follows the question words.  For
    an utterance made of "who is ", "what is " or "tell me about " and a
    name, where the name has none of these three phrases in it and no blank
    at either end, and where no earlier rule matches, [search_wikipedia] is
    called with exactly the name. *)
Theorem encyclopedia_topic (p name : string) :
  In p ["who is "; "what is "; "tell me about "] ->
  is_greeting (p ++ name) = false ->
  is_time (p ++ name) = false ->
  is_date (p ++ name) = false ->
  is_open_app (p ++ name) = false ->
  str_in "who is " name = false ->
  str_in "what is " name = false ->
  str_in "tell me about " name = false ->
  strip name = name ->
  classify (p ++ name) = Routed (Encyclopedia name)
  /\ performs (p ++ name)%string [ESearchWikipedia name].
Proof.
  intros Hp Hg Ht Hd Ha H1 H2 H3 Hs.
  assert (Hw : is_wikipedia (p ++ name) = true).
  { unfold is_wikipedia, startswith. destruct Hp as [<-|[<-|[<-|[]]]].
    - apply orb_true_iff. left. apply orb_true_iff. left.
      apply prefix_app. now exists name.
    - apply orb_true_iff. left. apply orb_true_iff. right.
      apply prefix_app. now exists name.
    - apply orb_true_iff. right. apply prefix_app. now exists name. }
  assert (Hc : classify (p ++ name) = Routed (Encyclopedia name)).
  { unfold classify. rewrite Hg, Ht, Hd, Ha, Hw. clear Hw.
    destruct Hp as [<-|[<-|[<-|[]]]].
    - change (is_open_website ("who is " ++ name)) with false. cbv iota.
      rewrite (replace_prefix "w" "ho is " "" name). cbn [append].
      now rewrite (replace_absent _ _ _ H1), (replace_absent _ _ _ H2),
        (replace_absent _ _ _ H3), Hs.
    - change (is_open_website ("what is " ++ name)) with false. cbv iota.
      rewrite (replace_absent "who is " "" ("what is " ++ name)) by (cbn; exact H1).
      rewrite (replace_prefix "w" "hat is " "" name). cbn [append].
      now rewrite (replace_absent _ _ _ H2), (replace_absent _ _ _ H3), Hs.
    - change (is_open_website ("tell me about " ++ name)) with false. cbv iota.
      rewrite (replace_absent "who is " "" ("tell me about " ++ name)) by (cbn; exact H1).
      rewrite (replace_absent "what is " "" ("tell me about " ++ name)) by (cbn; exact H2).
      rewrite (replace_prefix "t" "ell me about " "" name). cbn [append].
      now rewrite (replace_absent _ _ _ H3), Hs. }
  split; [exact Hc|]. apply (performs_handle _ _ _ Hc). reflexivity.
Qed.

Lemma encyclopedia_topic_witness :
  classify "who is ada lovelace" = Routed (Encyclopedia "ada lovelace")
  /\ performs "who is ada lovelace" [ESearchWikipedia "ada lovelace"].
Proof.
  refine (encyclopedia_topic "who is " "ada lovelace" _ eq_refl eq_refl eq_refl
            eq_refl eq_refl eq_refl eq_refl eq_refl).
  left. reflexivity.
Defined.

(** ** The application key of a launch command *)

Lemma rstrip_word (key s : string) :
  blank_free key = true -> rstrip (key ++ s) = (key ++ rstrip s)%string.
Proof.
  induction key as [|c key IH]; cbn [blank_free append]; [reflexivity|].
  intros H. apply andb_true_iff in H as [Hc Hk]. apply negb_true_iff in Hc.
  cbn [rstrip]. rewrite (IH Hk), Hc. destruct (key ++ rstrip s)%string; reflexivity.
Qed.

Lemma rstrip_starts_blank (s : string) :
  starts_blank s = true -> starts_blank (rstrip s) = true.
Proof.
  destruct s as [|c s]; [reflexivity|]. cbn [starts_blank rstrip]. intros Hc.
  rewrite Hc. destruct (rstrip s); exact Hc || reflexivity.
Qed.

Lemma split_from_word (cur key s : string) :
  blank_free key = true -> split_from cur (key ++ s) = split_from (cur ++ key) s.
Proof.
  revert cur. induction key as [|c key IH]; intros cur; cbn [blank_free append].
  - intros _. f_equal. induction cur as [|d cur IHc]; cbn; [reflexivity | now rewrite <- IHc].
  - intros H. apply andb_true_iff in H as [Hc Hk]. apply negb_true_iff in Hc.
    cbn [split_from]. rewrite Hc, (IH _ Hk). f_equal.
    induction cur as [|d cur IHc]; cbn; [reflexivity | now rewrite IHc].
Qed.

Lemma split_ws_first_word (c : ascii) (key s : string) :
  blank_free (String c key) = true -> starts_blank s = true ->
  nth_error (split_ws (String c key ++ s)) 0 = Some (String c key).
Proof.
  intros Hk Hs. unfold split_ws. rewrite (split_from_word _ _ _ Hk). cbn [append].
  destruct s as [|d s]; [reflexivity|].
  cbn [starts_blank] in Hs. cbn [split_from]. rewrite Hs. reflexivity.
Qed.

(** "launch" and a word: when the utterance is "launch ", then a word with
    no white space in it, then nothing or white space and anything, and no
    earlier rule matches, the application key is that word alone; what comes
    after it is dropped. *)
Theorem launch_first_word (key rest : string) :
  truthy key = true ->
  blank_free key = true ->
  starts_blank rest = true ->
  is_greeting ("launch " ++ key ++ rest) = false ->
  is_time ("launch " ++ key ++ rest) = false ->
  is_date ("launch " ++ key ++ rest) = false ->
  classify ("launch " ++ key ++ rest) = Routed (OpenApp key)
  /\ forall e w,
      parse_and_execute e (Some ("launch " ++ key ++ rest)%string) w = open_app e key w.
Proof.
  intros Hne Hk Hr Hg Ht Hd.
  assert (Hc : classify ("launch " ++ key ++ rest) = Routed (OpenApp key)).
  { unfold classify. rewrite Hg, Ht, Hd.
    change (is_open_website ("launch " ++ key ++ rest)) with false. cbv iota.
    assert (Hin : str_in "launch " ("launch " ++ key ++ rest) = true).
    { apply str_in_app. now exists EmptyString, (key ++ rest)%string. }
    unfold is_open_app. rewrite Hin. cbn [orb].
    unfold app_prefixes. cbn [app_key_of]. rewrite Hin.
    assert (Hsplit : split_once "launch " ("launch " ++ key ++ rest)
                     = [EmptyString; (key ++ rest)%string]).
    { unfold split_once. cbn [append split_once_from].
      assert (Hp : String.prefix "launch " ("launch " ++ key ++ rest) = true).
      { apply prefix_app. now exists (key ++ rest)%string. }
      cbn [append] in Hp. rewrite Hp. reflexivity. }
    rewrite Hsplit.
    change (nth_error [EmptyString; (key ++ rest)%string] 1)
      with (Some (key ++ rest)%string). cbv iota.
    destruct key as [|c key]; [discriminate Hne|].
    assert (Hstrip : strip (String c key ++ rest) = (String c key ++ rstrip rest)%string).
    { unfold strip. cbn [append lstrip].
      cbn [blank_free] in Hk. apply andb_true_iff in Hk as [Hc Hk'].
      apply negb_true_iff in Hc. rewrite Hc.
      change (String c (key ++ rest)) with (String c key ++ rest)%string.
      apply rstrip_word. cbn [blank_free]. now rewrite Hc, Hk'. }
    rewrite Hstrip, (split_ws_first_word _ _ _ Hk (rstrip_starts_blank _ Hr)).
    reflexivity. }
  split; [exact Hc|]. intros e w. now rewrite parse_and_execute_dispatch, Hc.
Qed.

Lemma launch_first_word_witness :
  classify "launch calculator now" = Routed (OpenApp "calculator")
  /\ forall e w,
      parse_and_execute e (Some "launch calculator now") w = open_app e "calculator" w.
Proof.
  exact (launch_first_word "calculator" " now" eq_refl eq_refl eq_refl
           eq_refl eq_refl eq_refl).
Defined.

(** ** A failing process launch *)

Lemma apps_have_win_command (key : string) (entry : launcher) :
  dict_get key apps = Some entry -> otruthy (win entry) = true.
Proof.
  unfold apps. cbn [dict_get].
  destruct (String.eqb "notepad" key); [intros H; injection H as <-; reflexivity|].
  destruct (String.eqb "calculator" key); [intros H; injection H as <-; reflexivity|].
  destruct (String.eqb "code" key); [intros H; injection H as <-; reflexivity|].
  discriminate.
Qed.

Lemma apps_commands_truthy (key : string) (entry : launcher) :
  dict_get key apps = Some entry ->
  forall cmd, mac entry = Some cmd \/ linux entry = Some cmd -> truthy cmd = true.
Proof.
  unfold apps. cbn [dict_get].
  destruct (String.eqb "notepad" key);
    [intros H; injection H as <-; intros cmd [E|E]; try discriminate E;
     injection E as <-; reflexivity|].
  destruct (String.eqb "calculator" key);
    [intros H; injection H as <-; intros cmd [E|E]; injection E as <-; reflexivity|].
  destruct (String.eqb "code" key);
    [intros H; injection H as <-; intros cmd [E|E]; injection E as <-; reflexivity|].
  discriminate.
Qed.

(** When [subprocess.Popen] fails for an application of the table, the
    platform decides what happens.  On Windows [open_app] announces the
    application, calls [Popen] with the Windows command, and the exception
    leaves it, and with it the turn and the main loop.  Elsewhere
    [open_app] announces the application, calls [Popen] with the words of
    the command of the platform, catches the exception, hands the very same
    command to [subprocess.call] through the shell, and returns; it says
    that it could not open the application exactly when that call raises
    too. *)
Theorem popen_failure_by_platform (e : env) (key msg : string) (entry : launcher)
        (heard : list (option string)) :
  dict_get key apps = Some entry ->
  popen_error e = Some msg ->
  (startswith (platform e) "win" = true ->
   forall cmd, win entry = Some cmd ->
     run (open_app e key) heard
     = Raised (OSError msg)
         (mkWorld heard [ESpeak ("Opening " ++ key)%string; EPopen [cmd]]))
  /\ (startswith (platform e) "win" = false ->
      forall cmd,
        (if startswith (platform e) "darwin" then mac entry else linux entry) = Some cmd ->
        run (open_app e key) heard
        = Done tt
            (mkWorld heard
               ([ESpeak ("Opening " ++ key)%string; EPopen (split_ws cmd); EShellCall cmd]
                ++ match call_error e with
                   | Some e2 => [ESpeak ("Could not open the application: " ++ e2)%string]
                   | None => []
                   end))).
Proof.
  intros Hk Hp. split.
  - intros Hw cmd Hcmd. pose proof (apps_have_win_command _ _ Hk) as Ht.
    unfold run, open_app. rewrite Hk, Hw, Ht, Hcmd.
    rewrite Hcmd in Ht. cbn [otruthy] in Ht.
    unfold bind, speak, emit, raise. rewrite Hp. cbn [or_else]. now rewrite Ht.
  - intros Hw cmd Hcmd.
    assert (Ht : truthy cmd = true).
    { apply (apps_commands_truthy _ _ Hk).
      destruct (startswith (platform e) "darwin"); [now left | now right]. }
    unfold run, open_app. rewrite Hk, Hw.
    assert (Hposix : forall c, c = Some cmd ->
              launch_posix e key c (mkWorld heard [])
              = Done tt
                  (mkWorld heard
                     ([ESpeak ("Opening " ++ key)%string; EPopen (split_ws cmd);
                       EShellCall cmd]
                      ++ match call_error e with
                         | Some e2 =>
                             [ESpeak ("Could not open the application: " ++ e2)%string]
                         | None => []
                         end))).
    { intros c ->. unfold launch_posix. cbn [otruthy or_else]. rewrite Ht.
      unfold bind, speak, emit, ret. rewrite Hp.
      destruct (call_error e); reflexivity. }
    destruct (startswith (platform e) "darwin"); now apply Hposix.
Qed.

Lemma popen_failure_by_platform_witness :
  run (open_app (mkEnv "win32" (Some "no such file") None) "calculator") []
  = Raised (OSError "no such file")
      (mkWorld [] [ESpeak "Opening calculator"; EPopen ["calc.exe"]])
  /\ run (open_app (mkEnv "darwin" (Some "no such file") (Some "not found")) "calculator") []
     = Done tt
         (mkWorld []
            [ESpeak "Opening calculator"; EPopen ["open"; "-a"; "Calculator"];
             EShellCall "open -a Calculator";
             ESpeak "Could not open the application: not found"]).
Proof.
  split.
  - exact (proj1 (popen_failure_by_platform (mkEnv "win32" (Some "no such file") None)
                    "calculator" "no such file" _ [] eq_refl eq_refl)
             eq_refl "calc.exe" eq_refl).
  - exact (proj2 (popen_failure_by_platform
                    (mkEnv "darwin" (Some "no such file") (Some "not found"))
                    "calculator" "no such file" _ [] eq_refl eq_refl)
             eq_refl "open -a Calculator" eq_refl).
Defined.

Lemma open_app_key_nonempty_witness : "calculator" <> EmptyString.
Proof. exact (open_app_key_nonempty "launch calculator now" "calculator" eq_refl). Defined.

(** ** Sending the e-mail *)

(** [send_email] returns [True] exactly when both credentials are set and
    non-empty and no step fails; it has then connected to smtp.gmail.com on
    port 587, started TLS, logged in, sent the message, quit, and said that
    the e-mail was sent, in this order. *)
Theorem send_email_true_iff (c : credentials) (f : smtp_faults)
        (to_addr subject body : string) :
  (snd (send_email_body c f to_addr subject body) = true
   <-> otruthy (EMAIL_USER c) = true /\ otruthy (EMAIL_PASS c) = true /\ f = no_fault)
  /\ (snd (send_email_body c f to_addr subject body) = true ->
      fst (send_email_body c f to_addr subject body)
      = [ASmtpConnect "smtp.gmail.com" 587;
         ASmtpStartTls;
         ASmtpLogin (or_else (EMAIL_USER c) "") (or_else (EMAIL_PASS c) "");
         ASmtpSendMessage (or_else (EMAIL_USER c) "") to_addr subject body;
         ASmtpQuit;
         ASay "Email sent successfully."]).
Proof.
  destruct c as [u p]. destruct f as [fb fc ft fl fs fq].
  unfold send_email_body, no_fault. cbn [EMAIL_USER EMAIL_PASS build_fault
    connect_fault starttls_fault login_fault send_fault quit_fault].
  destruct (otruthy u), (otruthy p); cbn [negb orb];
    destruct fb, fc, ft, fl, fs, fq; cbn [attempt fst snd app];
    (split; [split; [intros H; try discriminate H; now repeat split
                    | intros (H1 & H2 & H3); try discriminate H1;
                      try discriminate H2; try discriminate H3; reflexivity]
            | intros H; try discriminate H; reflexivity]).
Qed.

(** A failure reported by [send_email] does not mean that nothing was sent:
    when everything goes through but the closing [quit] raises, the message
    has been handed to the server, and still [send_email] says that it
    failed to send and returns [False]. *)
Theorem send_email_failure_after_delivery (c : credentials) (msg to_addr subject body : string) :
  otruthy (EMAIL_USER c) = true ->
  otruthy (EMAIL_PASS c) = true ->
  let result := send_email_body c (mkFaults None None None None None (Some msg))
                                to_addr subject body in
  In (ASmtpSendMessage (or_else (EMAIL_USER c) "") to_addr subject body) (fst result)
  /\ last (fst result) ASmtpQuit = ASay ("Failed to send email. " ++ msg)%string
  /\ snd result = false.
Proof.
  intros Hu Hp result. subst result. unfold send_email_body.
  rewrite Hu, Hp. cbn. repeat split. do 3 right. now left.
Qed.

Lemma send_email_failure_after_delivery_witness :
  let result := send_email_body (mkCredentials (Some "me@gmail.com") (Some "secret"))
                                (mkFaults None None None None None (Some "connection reset"))
                                "a@b.com" "hi" "test body" in
  In (ASmtpSendMessage "me@gmail.com" "a@b.com" "hi" "test body") (fst result)
  /\ last (fst result) ASmtpQuit = ASay "Failed to send email. connection reset"
  /\ snd result = false.
Proof.
  exact (send_email_failure_after_delivery
           (mkCredentials (Some "me@gmail.com") (Some "secret"))
           "connection reset" "a@b.com" "hi" "test body" eq_refl eq_refl).
Defined.

(** [send_email] closes the connection only on the way to success: when it
    returns [False] and [quit] itself is not what failed, [quit] was never
    called, also when the connection had been opened. *)
Theorem send_email_no_quit_after_failure (c : credentials) (f : smtp_faults)
        (to_addr subject body : string) :
  snd (send_email_body c f to_addr subject body) = false ->
  quit_fault f = None ->
  ~ In ASmtpQuit (fst (send_email_body c f to_addr subject body)).
Proof.
  destruct c as [u p]. destruct f as [fb fc ft fl fs fq].
  unfold send_email_body. cbn [EMAIL_USER EMAIL_PASS build_fault
    connect_fault starttls_fault login_fault send_fault quit_fault].
  intros H Hq. subst fq.
  destruct (otruthy u), (otruthy p); cbn [negb orb] in *;
    destruct fb, fc, ft, fl, fs; cbn [attempt fst snd app] in *;
    try discriminate H;
    intros Hin; cbn in Hin;
    repeat destruct Hin as [Hin|Hin]; try discriminate Hin; exact Hin.
Qed.

Lemma send_email_no_quit_after_failure_witness :
  In (ASmtpConnect "smtp.gmail.com" 587)
     (fst (send_email_body (mkCredentials (Some "me@gmail.com") (Some "wrong"))
             (mkFaults None None None (Some "bad credentials") None None)
             "a@b.com" "hi" "test body"))
  /\ ~ In ASmtpQuit
       (fst (send_email_body (mkCredentials (Some "me@gmail.com") (Some "wrong"))
               (mkFaults None None None (Some "bad credentials") None None)
               "a@b.com" "hi" "test body")).
Proof.
  split.
  - left. reflexivity.
  - exact (send_email_no_quit_after_failure
             (mkCredentials (Some "me@gmail.com") (Some "wrong"))
             (mkFaults None None None (Some "bad credentials") None None)
             "a@b.com" "hi" "test body" eq_refl eq_refl).
Defined.

(** ** What is heard *)

Lemma lower_char_not_upper (c : ascii) : is_upper (lower_char c) = false.
Proof.
  destruct c as [b0 b1 b2 b3 b4 b5 b6 b7].
  destruct b0, b1, b2, b3, b4, b5, b6, b7; reflexivity.
Qed.

Lemma lower_app (a b : string) : lower (a ++ b) = (lower a ++ lower b)%string.
Proof. induction a as [|c a IH]; cbn [append lower]; [reflexivity | now rewrite IH]. Qed.

Lemma lower_fixed (s : string) :
  (forall n ch, String.get n s = Some ch -> is_upper ch = false) -> lower s = s.
Proof.
  induction s as [|c s IH]; intros H; [reflexivity|].
  cbn [lower]. rewrite IH.
  - unfold lower_char. now rewrite (H 0 c eq_refl).
  - intros n ch Hn. exact (H (S n) ch Hn).
Qed.

Lemma lower_no_upper (s : string) (n : nat) (ch : ascii) :
  String.get n (lower s) = Some ch -> is_upper ch = false.
Proof.
  revert n. induction s as [|c s IH]; intros n; [discriminate|].
  cbn [lower]. destruct n as [|n]; cbn [String.get].
  - intros H. injection H as <-. apply lower_char_not_upper.
  - apply IH.
Qed.

(** Every text the main loop gets from [listen] is in lower case: it has no
    capital letter (A to Z, or a capital of Latin-1) and lowering it again
    changes nothing.  The keyword tests of [parse_and_execute], all in lower
    case, are applied to such texts only. *)
Theorem heard_is_lower_case (captures : list capture) (t : string) :
  In (Some t) (heard_from captures) ->
  lower t = t /\ forall n ch, String.get n t = Some ch -> is_upper ch = false.
Proof.
  unfold heard_from. rewrite in_map_iff. intros (c & Hc & _).
  assert (Ht : exists raw, t = lower raw).
  { destruct c as [|[raw| |msg]]; try discriminate Hc.
    exists raw. cbn in Hc. now injection Hc. }
  destruct Ht as [raw ->].
  assert (Hup : forall n ch, String.get n (lower raw) = Some ch -> is_upper ch = false)
    by (intros n ch; apply lower_no_upper).
  split; [now apply lower_fixed | exact Hup].
Qed.

Lemma heard_is_lower_case_witness :
  lower "open youtube" = "open youtube"
  /\ forall n ch, String.get n "open youtube" = Some ch -> is_upper ch = false.
Proof.
  refine (heard_is_lower_case [WaitTimeout; Audio (Transcript "Open YouTube")]
            "open youtube" _).
  right. left. reflexivity.
Defined.

(** Capital letters in what was said do not matter: a transcript that has a
    greeting word in it, in whatever mix of capitals and small letters, is
    heard as a text that is classified as a greeting. *)
Theorem heard_greeting_any_case (raw a kw b : string) :
  raw = (a ++ kw ++ b)%string ->
  In (lower kw) greeting_keywords ->
  exists t,
    snd (listen_body (Audio (Transcript raw))) = Some t
    /\ classify t = Routed Greet.
Proof.
  intros -> Hkw. exists (lower (a ++ kw ++ b)). split; [reflexivity|].
  assert (Hg : is_greeting (lower (a ++ kw ++ b)) = true).
  { apply keyword_in. exists (lower kw), (lower a), (lower b).
    split; [exact Hkw|]. now rewrite !lower_app. }
  unfold classify. now rewrite Hg.
Qed.

Lemma heard_greeting_any_case_witness :
  exists t,
    snd (listen_body (Audio (Transcript "Hello Assistant"))) = Some t
    /\ classify t = Routed Greet.
Proof.
  refine (heard_greeting_any_case "Hello Assistant" "" "Hello" " Assistant" eq_refl _).
  left. reflexivity.
Defined.

(** ** Asking for the weather *)

(** Whatever the key, the reply and the city, [get_weather] speaks exactly
    once, and that is the last thing it does; it sends at most one request,
    none at all without an API key, and the request goes to the
    OpenWeatherMap address with the city as heard, the key, metric units and
    a time-out of 8 seconds. *)
Theorem get_weather_speaks_once (explain : lookup_failure -> string)
        (render : json -> string) (apikey : option string) (reply : http_reply)
        (city : string) :
  let acts := get_weather_body explain render apikey reply city in
  List.length (filter is_say acts) = 1
  /\ is_say (last acts ASmtpQuit) = true
  /\ List.length acts <= 2
  /\ forall url params timeout,
      In (AHttpGet url params timeout) acts ->
      otruthy apikey = true
      /\ url = "https://api.openweathermap.org/data/2.5/weather"
      /\ params = [("q", city); ("appid", or_else apikey ""); ("units", "metric")]
      /\ timeout = 8.
Proof.
  unfold get_weather_body.
  destruct (otruthy apikey); cbn [negb].
  - destruct reply as [msg|data];
      [|destruct (weather_fields data) as [[[d t] f]|x]];
      (cbn; split; [reflexivity | split; [reflexivity | split; [lia|]]];
       intros url params timeout [H|[H|[]]]; try discriminate H;
       injection H as <- <- <-; now repeat split).
  - cbn. split; [reflexivity | split; [reflexivity | split; [lia|]]].
    intros url params timeout [H|[]]. discriminate H.
Qed.

(** The reply is read through as the source does, subscript by subscript.
    The reading gives the three values exactly when the reply is an object
    whose "weather" is a list that starts with an object with a
    "description", and whose "main" is an object with "temp" and
    "feels_like".  In every other case, an empty "weather" list included, a
    subscript raises, and [get_weather] says that it failed. *)
Theorem weather_reply_complete_iff (data desc temp feels : json) :
  weather_fields data = inl (desc, temp, feels)
  <-> exists fields first rest main,
        data = JObj fields
        /\ dict_get "weather" fields = Some (JArr (JObj first :: rest))
        /\ dict_get "description" first = Some desc
        /\ dict_get "main" fields = Some (JObj main)
        /\ dict_get "temp" main = Some temp
        /\ dict_get "feels_like" main = Some feels.
Proof.
  split.
  - unfold weather_fields, subscript_key, subscript_zero. intros H.
    destruct data as [ | | | | |fields]; try discriminate H.
    destruct (dict_get "weather" fields) as [w|] eqn:Hw; [|discriminate H].
    destruct w as [ | | |s|items|wf]; try discriminate H.
    + destruct s; discriminate H.
    + destruct items as [|first rest]; [discriminate H|].
      destruct first as [ | | | | |ff]; try discriminate H.
      destruct (dict_get "description" ff) as [d|] eqn:Hd; [|discriminate H].
      destruct (dict_get "main" fields) as [m|] eqn:Hm; [|discriminate H].
      destruct m as [ | | | | |mf]; try discriminate H.
      destruct (dict_get "temp" mf) as [t|] eqn:Ht; [|discriminate H].
      destruct (dict_get "feels_like" mf) as [f|] eqn:Hf; [|discriminate H].
      injection H as <- <- <-. now exists fields, ff, rest, mf.
  - intros (fields & first & rest & main & -> & Hw & Hd & Hm & Ht & Hf).
    unfold weather_fields, subscript_key, subscript_zero.
    now rewrite Hw, Hd, Hm, Ht, Hf.
Qed.

(** With an API key and a complete reply, [get_weather] says the weather of
    the city with the description and the two temperatures of the reply;
    with an API key and an incomplete reply it says that it failed, with
    the text of the exception, and nothing is raised. *)
Theorem get_weather_answers (explain : lookup_failure -> string)
        (render : json -> string) (apikey : option string) (data : json)
        (city : string) :
  otruthy apikey = true ->
  exists sentence,
    get_weather_body explain render apikey (HttpJson data) city
    = [AHttpGet "https://api.openweathermap.org/data/2.5/weather"
         [("q", city); ("appid", or_else apikey ""); ("units", "metric")] 8;
       ASay sentence]
    /\ (startswith sentence "Weather in " = true
        <-> exists desc temp feels, weather_fields data = inl (desc, temp, feels))
    /\ (startswith sentence "Failed to get weather: " = true
        <-> exists x, weather_fields data = inr x).
Proof.
  intros Hk. unfold get_weather_body. rewrite Hk. cbn [negb].
  destruct (weather_fields data) as [[[d t] f]|x]; eexists; (split; [reflexivity|]).
  - split; split; try discriminate.
    + intros _. now exists d, t, f.
    + intros _. apply prefix_app. eexists. reflexivity.
    + intros [x Hx]. discriminate Hx.
  - split; split; try discriminate.
    + intros [d [t [f H]]]. discriminate H.
    + intros _. now exists x.
    + intros _. apply prefix_app. eexists. reflexivity.
Qed.

Lemma get_weather_answers_witness :
  exists sentence,
    get_weather_body (fun _ => "list index out of range") (fun _ => "")
      (Some "k3y") (HttpJson (JObj [("weather", JArr []); ("main", JObj [])])) "delhi"
    = [AHttpGet "https://api.openweathermap.org/data/2.5/weather"
         [("q", "delhi"); ("appid", "k3y"); ("units", "metric")] 8;
       ASay sentence]
    /\ (startswith sentence "Weather in " = true
        <-> exists desc temp feels,
              weather_fields (JObj [("weather", JArr []); ("main", JObj [])])
              = inl (desc, temp, feels))
    /\ (startswith sentence "Failed to get weather: " = true
        <-> exists x,
              weather_fields (JObj [("weather", JArr []); ("main", JObj [])]) = inr x).
Proof.
  exact (get_weather_answers (fun _ => "list index out of range") (fun _ => "")
           (Some "k3y") (JObj [("weather", JArr []); ("main", JObj [])]) "delhi" eq_refl).
Defined.

(** ** The address of an open command *)

(** "open" and a target: when the utterance is "open " and a target that has
    no further "open " in it and no white space at either end, and is no
    greeting and no time or date request, the browser is given "https://"
    and the target, or the address the quick table has for the target; a
    target or address that itself starts with "http" is given as it is. *)
Theorem open_command_url (target : string) :
  is_greeting ("open " ++ target) = false ->
  is_time ("open " ++ target) = false ->
  is_date ("open " ++ target) = false ->
  str_in "open " target = false ->
  strip target = target ->
  let site := match dict_get target quick with Some s => s | None => target end in
  let url := if startswith site "http" then site else ("https://" ++ site)%string in
  classify ("open " ++ target) = Routed (OpenWebsite site)
  /\ performs ("open " ++ target)%string
       [ESpeak ("Opening " ++ url)%string; EBrowserOpen url].
Proof.
  intros Hg Ht Hd Hin Hs site url.
  assert (Hw : is_open_website ("open " ++ target) = true).
  { unfold is_open_website, startswith. apply prefix_app. now exists target. }
  assert (Hc : classify ("open " ++ target) = Routed (OpenWebsite site)).
  { unfold classify. rewrite Hg, Ht, Hd, Hw.
    rewrite (replace_prefix "o" "pen " "" target). cbn [append].
    rewrite (replace_absent _ _ _ Hin), Hs. subst site.
    destruct (dict_get target quick); reflexivity. }
  split; [exact Hc|]. apply (performs_handle _ _ _ Hc).
  intros e heard. subst url. unfold run, handle, open_website, bind, speak, emit.
  destruct (startswith site "http"); reflexivity.
Qed.

Lemma open_command_url_witness :
  (classify "open gmail" = Routed (OpenWebsite "mail.google.com")
   /\ performs "open gmail"
        [ESpeak "Opening https://mail.google.com"; EBrowserOpen "https://mail.google.com"])
  /\ (classify "open https://example.org" = Routed (OpenWebsite "https://example.org")
      /\ performs "open https://example.org"
           [ESpeak "Opening https://example.org"; EBrowserOpen "https://example.org"]).
Proof.
  split.
  - exact (open_command_url "gmail" eq_refl eq_refl eq_refl eq_refl eq_refl).
  - exact (open_command_url "https://example.org" eq_refl eq_refl eq_refl eq_refl eq_refl).
Defined.
